(** * OAuthTokenManager: token store, authorization flow and orchestrator

    A shallow embedding of [OAuthTokenManager.ts] and the properties its
    specification states about it.

    Conventions of the embedding.
    - JavaScript numbers that the code uses as counts of seconds, hours and
      epoch milliseconds are integers ([Z]).
    - A JavaScript value that the code inspects dynamically (credentials, the
      result of [JSON.parse]) is a [JSValue]; a token is the record its
      TypeScript interface declares.
    - The text of a file or of an HTTP body is kept up to [JSON.parse]: either
      text that [JSON.parse] rejects, or the text of a JSON value.
    - Code that reads the clock, the file system, the network or the local
      listener is a computation [M A] over a [World]; a computation returns
      or throws. [await] is sequencing: the code is single threaded. *)

From stdpp Require Import base option gmap strings list.
From Stdlib Require Import ZArith Lia.

Local Open Scope string_scope.
Local Open Scope Z_scope.

(** ** JavaScript values *)

#[warnings="-register-all"]
Inductive JSValue : Type :=
| JUndefined
| JNull
| JBool (b : bool)
| JNum (n : Z)
| JStr (s : string)
| JArr (xs : list JSValue)
| JObj (props : list (string * JSValue)).

Inductive JSError : Type :=
| TypeError (msg : string)
| SyntaxError
| SystemError (code : string)
| Error (msg : string).

Inductive Outcome (A : Type) : Type :=
| Return (a : A)
| Throw (e : JSError).
Arguments Return {A} a.
Arguments Throw {A} e.

Module JS.

(** [if (v)], [!v], [a || b], [a && b] test this. *)
Definition truthy (v : JSValue) : bool :=
  match v with
  | JUndefined | JNull => false
  | JBool b => b
  | JNum n => negb (n =? 0)
  | JStr s => negb (String.eqb s EmptyString)
  | JArr _ | JObj _ => true
  end.

Definition truthy_num (x : option Z) : bool :=
  match x with Some n => negb (n =? 0) | None => false end.

Definition truthy_str (x : option string) : bool :=
  match x with Some s => negb (String.eqb s EmptyString) | None => false end.

(** [x || d] on an optional number. *)
Definition or_num (x : option Z) (d : Z) : Z :=
  match x with Some n => if n =? 0 then d else n | None => d end.

(** [x || d] on an optional string. *)
Definition or_str (x : option string) (d : string) : string :=
  match x with Some s => if String.eqb s EmptyString then d else s | None => d end.

Fixpoint assoc (k : string) (ps : list (string * JSValue)) : option JSValue :=
  match ps with
  | [] => None
  | (k', v) :: ps' => if String.eqb k k' then Some v else assoc k ps'
  end.

(** [v.k] and [v[k]] for a property name [k]. Reading a property of
    [undefined] or [null] throws; a primitive or an array has none of the
    names the code itself asks for. An index of an array or a string, and a
    name from a prototype, are not followed: properties that depend on them
    say so. *)
Definition get (v : JSValue) (k : string) : Outcome JSValue :=
  match v with
  | JUndefined | JNull =>
      Throw (TypeError ("Cannot read properties of undefined or null: " +:+ k))
  | JObj ps => Return (default JUndefined (assoc k ps))
  | _ => Return JUndefined
  end.

(** [v[0]]. *)
Definition first (v : JSValue) : Outcome JSValue :=
  match v with
  | JUndefined | JNull => Throw (TypeError "Cannot read properties of undefined or null: 0")
  | JArr xs => Return (default JUndefined (head xs))
  | JObj ps => Return (default JUndefined (assoc "0" ps))
  | JStr (String c _) => Return (JStr (String c EmptyString))
  | _ => Return JUndefined
  end.

(** [k in v]; the right operand must be an object. Own properties of a
    plain object: see [Object_prototype] for the names it inherits. *)
Definition has (k : string) (v : JSValue) : Outcome bool :=
  match v with
  | JObj ps => Return (bool_decide (is_Some (assoc k ps)))
  | JArr _ => Return false
  | _ => Throw (TypeError "Cannot use 'in' operator in a non-object")
  end.

End JS.

(** ** Text, files, HTTP *)

(** Text up to [JSON.parse]. *)
Inductive Text : Type :=
| Garbage (raw : string)      (* JSON.parse throws SyntaxError on it *)
| JsonText (v : JSValue).     (* JSON.parse reads v; JSON.stringify v writes it *)

Inductive File : Type :=
| Unreadable                  (* exists; reading it fails *)
| Readable (t : Text).

Record Request := mkRequest {
  req_url : JSValue;
  req_method : string;
  req_content_type : string;
  req_body : list (string * JSValue)    (* querystring.stringify of these pairs *)
}.

Record Response := mkResponse {
  resp_ok : bool;
  resp_status : Z;
  resp_body : Text
}.

Inductive FetchResult : Type :=
| NetworkError                (* fetch rejects *)
| Responded (r : Response).

(** What reaches the local listener while a call waits on it, with the time
    of arrival in milliseconds since the wait began. A request is one whose
    URL the handler can parse, given as its query, or one without a URL. *)
Inductive CallbackEvent : Type :=
| HttpRequest (query : option (list (string * string)))  (* None: req.url unset *)
| Abort.                                                 (* the signal fires 'abort' *)

Inductive Prompt : Type := PromptNone | PromptConsent | PromptSelectAccount.

Record OAuthGetTokenOptions := mkGetTokenOptions {
  scope_opt : string;
  timeoutSeconds : option Z;
  includeOfflineAccess : option bool;
  loginHint : option string;
  prompt : option Prompt;
  signal : bool                 (* an AbortSignal was passed *)
}.

Record AuthUrl := mkAuthUrl {
  auth_base : JSValue;
  auth_params : list (string * JSValue)
}.

(** ** The world *)

Record Env := mkEnv {
  clock : nat -> Z;                       (* successive readings of Date.now() *)
  cwd : string;                           (* process.cwd() *)
  fetch_result : Request -> FetchResult;  (* what fetch settles to *)
  url_port : string -> option (option Z); (* new URL(s).port: None when s is no URL,
                                             Some None when it names no port *)
  port_busy : Z -> bool;                  (* another process holds the port *)
  exec_ok : bool;                         (* the command that opens the browser succeeds *)
  arrivals : list (Z * CallbackEvent)     (* events at the listener, in order of arrival *)
}.

(** Permissions and the shape of the directory tree are not modelled: a file
    can be read or not, and the medium takes every write or none. *)
Record World := mkWorld {
  env : Env;
  files : gmap string File;
  dirs : gset string;
  readonly : bool;                        (* the medium refuses every write *)
  tick : nat;                             (* readings of the clock so far *)
  listening : list Z;                     (* ports with an open listener *)
  opened : list AuthUrl;                  (* URLs handed to the browser *)
  replies : list Z;                       (* status codes sent to callback requests *)
  flows : list OAuthGetTokenOptions       (* calls of getToken so far, latest first *)
}.

Definition set_files (f : gmap string File -> gmap string File) (w : World) : World :=
  mkWorld (env w) (f (files w)) (dirs w) (readonly w) (tick w) (listening w)
          (opened w) (replies w) (flows w).
Definition set_dirs (f : gset string -> gset string) (w : World) : World :=
  mkWorld (env w) (files w) (f (dirs w)) (readonly w) (tick w) (listening w)
          (opened w) (replies w) (flows w).
Definition set_tick (f : nat -> nat) (w : World) : World :=
  mkWorld (env w) (files w) (dirs w) (readonly w) (f (tick w)) (listening w)
          (opened w) (replies w) (flows w).
Definition set_listening (f : list Z -> list Z) (w : World) : World :=
  mkWorld (env w) (files w) (dirs w) (readonly w) (tick w) (f (listening w))
          (opened w) (replies w) (flows w).
Definition set_opened (f : list AuthUrl -> list AuthUrl) (w : World) : World :=
  mkWorld (env w) (files w) (dirs w) (readonly w) (tick w) (listening w)
          (f (opened w)) (replies w) (flows w).
Definition set_replies (f : list Z -> list Z) (w : World) : World :=
  mkWorld (env w) (files w) (dirs w) (readonly w) (tick w) (listening w)
          (opened w) (f (replies w)) (flows w).
Definition set_flows (f : list OAuthGetTokenOptions -> list OAuthGetTokenOptions)
    (w : World) : World :=
  mkWorld (env w) (files w) (dirs w) (readonly w) (tick w) (listening w)
          (opened w) (replies w) (f (flows w)).

(** ** Computations *)

Definition M (A : Type) : Type := World -> Outcome A * World.

Definition ret {A} (a : A) : M A := fun w => (Return a, w).
Definition throw {A} (e : JSError) : M A := fun w => (Throw e, w).
Definition bind {A B} (m : M A) (k : A -> M B) : M B :=
  fun w => match m w with
           | (Return a, w') => k a w'
           | (Throw e, w') => (Throw e, w')
           end.
Definition lift {A} (o : Outcome A) : M A := fun w => (o, w).

#[export] Instance M_ret : MRet M := @ret.
#[export] Instance M_bind : MBind M := fun A B k m => bind m k.

(** [try { body } catch (e) { handler e }] *)
Definition try_catch {A} (body : M A) (handler : JSError -> M A) : M A :=
  fun w => match body w with
           | (Return a, w') => (Return a, w')
           | (Throw e, w') => handler e w'
           end.

(** [try { body } finally { fin }]: [fin] runs on both ways out of [body]. *)
Definition try_finally {A} (body : M A) (fin : M unit) : M A :=
  fun w => match body w with
           | (o, w') =>
               match fin w' with
               | (Return _, w'') => (o, w'')
               | (Throw e, w'') => (Throw e, w'')
               end
           end.

(** The settled state of an awaited promise, as a value. *)
Definition settle {A} (m : M A) : M (Outcome A) :=
  fun w => match m w with (o, w') => (Return o, w') end.

Definition gets {A} (f : World -> A) : M A := fun w => (Return (f w), w).
Definition modify (f : World -> World) : M unit := fun w => (Return tt, f w).

(** ** Runtime primitives *)

Definition Date_now : M Z :=
  fun w => (Return (clock (env w) (tick w)), set_tick S w).

Module path.

Definition join (dir file : string) : string := dir +:+ "/" +:+ file.

(** The part of [p] before its last separator, ["."] when it has none. *)
Fixpoint dirname_aux (p : string) : option string :=
  match p with
  | EmptyString => None
  | String c rest =>
      match dirname_aux rest with
      | Some d => Some (String c d)
      | None => if String.eqb (String c EmptyString) "/" then Some EmptyString else None
      end
  end.

Definition dirname (p : string) : string :=
  match dirname_aux p with
  | Some EmptyString => "/"
  | Some d => d
  | None => "."
  end.

(** The directories above [p]: what [p] reads up to each of its separators,
    the leading one apart. *)
Fixpoint parents_from (pre p : string) : list string :=
  match p with
  | EmptyString => []
  | String c rest =>
      ((if String.eqb (String c EmptyString) "/" && negb (String.eqb pre EmptyString)
        then [pre] else [])
       ++ parents_from (pre +:+ String c EmptyString) rest)%list
  end.

Definition parents (p : string) : list string := parents_from EmptyString p.

End path.

Module fs.

Definition existsSync (p : string) : M bool :=
  gets (fun w => bool_decide (is_Some (files w !! p)) || bool_decide (p ∈ dirs w)).

Definition readFileSync (p : string) : M Text :=
  fun w => match files w !! p with
           | Some (Readable t) => (Return t, w)
           | Some Unreadable => (Throw (SystemError "EACCES"), w)
           | None => if bool_decide (p ∈ dirs w)
                     then (Throw (SystemError "EISDIR"), w)
                     else (Throw (SystemError "ENOENT"), w)
           end.

(** Writing fails on a medium that refuses writes. A path that is a
    directory, or lies below a regular file, is not told apart here. *)
Definition writeFileSync (p : string) (t : Text) : M unit :=
  fun w => if readonly w then (Throw (SystemError "EROFS"), w)
           else (Return tt, set_files (insert p (Readable t)) w).

(** [fs.mkdirSync(p, { recursive: true })], the one call the code makes:
    the directory and the missing ones above it. *)
Definition mkdirSync (p : string) : M unit :=
  fun w => if readonly w then (Throw (SystemError "EROFS"), w)
           else (Return tt,
                 set_dirs (union ({[p]} ∪ list_to_set (path.parents p))) w).

Definition unlinkSync (p : string) : M unit :=
  fun w => if readonly w then (Throw (SystemError "EROFS"), w)
           else match files w !! p with
                | Some _ => (Return tt, set_files (delete p) w)
                | None => if bool_decide (p ∈ dirs w)
                          then (Throw (SystemError "EISDIR"), w)
                          else (Throw (SystemError "ENOENT"), w)
                end.

End fs.

Module JSON.

Definition parse (t : Text) : M JSValue :=
  match t with
  | Garbage _ => throw SyntaxError
  | JsonText v => ret v
  end.

Definition stringify (v : JSValue) : Text := JsonText v.

End JSON.

Definition fetch (r : Request) : M Response :=
  fun w => match fetch_result (env w) r with
           | NetworkError => (Throw (TypeError "fetch failed"), w)
           | Responded resp => (Return resp, w)
           end.

(** ** Tokens *)

(** [StoredOAuthToken extends OAuthToken] by two optional fields, and
    TypeScript types are structural: an [OAuthToken] is a [StoredOAuthToken]
    whose [expires_at] and [created_at] may be absent. One record serves
    both. An optional field that is absent is [None]. *)
Record StoredOAuthToken := mkToken {
  access_token : string;
  refresh_token : option string;
  expires_in : Z;
  token_type : string;
  scope : option string;
  expires_at : option Z;
  created_at : option Z
}.
Abbreviation OAuthToken := StoredOAuthToken.

Definition with_refresh_token (rt : option string) (t : OAuthToken) : OAuthToken :=
  mkToken (access_token t) rt (expires_in t) (token_type t) (scope t)
          (expires_at t) (created_at t).

(** [{...token, created_at: c, expires_at: e}] *)
Definition with_times (c e : Z) (t : OAuthToken) : StoredOAuthToken :=
  mkToken (access_token t) (refresh_token t) (expires_in t) (token_type t) (scope t)
          (Some e) (Some c).

Module Token.

Definition field {A} (k : string) (f : A -> JSValue) (x : option A)
  : list (string * JSValue) :=
  match x with Some a => [(k, f a)] | None => [] end.

(** The object a token is; absent fields are absent properties. *)
Definition toJSON (t : StoredOAuthToken) : JSValue :=
  JObj ([("access_token", JStr (access_token t))]
        ++ field "refresh_token" JStr (refresh_token t)
        ++ [("expires_in", JNum (expires_in t));
            ("token_type", JStr (token_type t))]
        ++ field "scope" JStr (scope t)
        ++ field "created_at" JNum (created_at t)
        ++ field "expires_at" JNum (expires_at t)).

Definition str (v : option JSValue) : option string :=
  match v with Some (JStr s) => Some s | _ => None end.
Definition num (v : option JSValue) : option Z :=
  match v with Some (JNum n) => Some n | _ => None end.
Definition opt_str (v : option JSValue) : option (option string) :=
  match v with
  | None | Some JUndefined => Some None
  | Some (JStr s) => Some (Some s)
  | _ => None
  end.
Definition opt_num (v : option JSValue) : option (option Z) :=
  match v with
  | None | Some JUndefined => Some None
  | Some (JNum n) => Some (Some n)
  | _ => None
  end.

(** [v as StoredOAuthToken] for a value of that type. The cast checks
    nothing at run time; the embedding follows the code on values of the
    declared type, and has no token for any other value ([null] included).
    Where a property depends on what a file or a response holds, it says
    that this is a token of the declared type, or that there is none
    ([nothing_stored], [typed_response]). *)
Definition ofJSON (v : JSValue) : option StoredOAuthToken :=
  match v with
  | JObj ps =>
      a ← str (JS.assoc "access_token" ps);
      r ← opt_str (JS.assoc "refresh_token" ps);
      i ← num (JS.assoc "expires_in" ps);
      y ← str (JS.assoc "token_type" ps);
      s ← opt_str (JS.assoc "scope" ps);
      e ← opt_num (JS.assoc "expires_at" ps);
      c ← opt_num (JS.assoc "created_at" ps);
      Some (mkToken a r i y s e c)
  | _ => None
  end.

End Token.

(** ** OAuthTokenManager *)

Record OAuthClient := mkClient {
  clientId : JSValue;
  clientSecret : JSValue;
  tokenUri : JSValue
}.

Record TokenManagerOptions := mkOptions {
  tokenFileName : option string;
  tokenDirectory : option string;
  expirationBufferMinutes : option Z;
  maxTokenLifetimeHours : option Z
}.

Record OAuthTokenManager := mkManager {
  tokenPath : string;
  expirationBuffer : Z;           (* milliseconds *)
  maxTokenLifetime : option Z     (* milliseconds *)
}.

Definition constructor (options : TokenManagerOptions) : Outcome OAuthTokenManager :=
  let tokenFileName := JS.or_str (tokenFileName options) "token.json" in
  match tokenDirectory options with
  | Some tokenDirectory =>
      if String.eqb tokenDirectory EmptyString
      then Throw (Error "tokenDirectory must be specified")
      else Return
        {| tokenPath := path.join tokenDirectory tokenFileName;
           expirationBuffer := JS.or_num (expirationBufferMinutes options) 5 * 60 * 1000;
           maxTokenLifetime :=
             match maxTokenLifetimeHours options with
             | Some h => if h =? 0 then None else Some (h * 60 * 60 * 1000)
             | None => None
             end |}
  | None => Throw (Error "tokenDirectory must be specified")
  end.

Section Manager.

Variable this : OAuthTokenManager.

Definition hasStoredToken : M bool := fs.existsSync (tokenPath this).

Definition getStoredToken : M (option StoredOAuthToken) :=
  has ← hasStoredToken;
  if negb has then mret None
  else
    try_catch
      (tokenContent ← fs.readFileSync (tokenPath this);
       token ← JSON.parse tokenContent;
       mret (Token.ofJSON token))
      (fun error => mret None).

Definition isTokenExpired (token : StoredOAuthToken) : M bool :=
  if negb (JS.truthy_num (expires_at token)) then mret true
  else
    now ← Date_now;
    let exceeded :=
      if JS.truthy_num (maxTokenLifetime this) && JS.truthy_num (created_at token)
      then
        let customExpirationTime :=
          default 0 (created_at token) + default 0 (maxTokenLifetime this) in
        customExpirationTime - expirationBuffer this <=? now
      else false in
    if exceeded then mret true
    else mret (default 0 (expires_at token) - expirationBuffer this <=? now).

Definition isTokenValid : M bool :=
  token ← getStoredToken;
  match token with
  | None => mret false
  | Some token => expired ← isTokenExpired token; mret (negb expired)
  end.

Definition saveToken (token : OAuthToken) : M unit :=
  now ← Date_now;
  let expiresAt := now + expires_in token * 1000 in
  let expiresAt :=
    if JS.truthy_num (maxTokenLifetime this)
    then let customExpiresAt := now + default 0 (maxTokenLifetime this) in
         Z.min expiresAt customExpiresAt
    else expiresAt in
  let storedToken := with_times now expiresAt token in
  let tokenDir := path.dirname (tokenPath this) in
  dirExists ← fs.existsSync tokenDir;
  (if negb dirExists then fs.mkdirSync tokenDir else mret tt);;
  fs.writeFileSync (tokenPath this) (JSON.stringify (Token.toJSON storedToken)).

Definition deleteStoredToken : M unit :=
  has ← hasStoredToken;
  if negb has then mret tt else fs.unlinkSync (tokenPath this).

Definition refreshRequest (client : OAuthClient) (refreshToken : string) : Request :=
  {| req_url := tokenUri client;
     req_method := "POST";
     req_content_type := "application/x-www-form-urlencoded";
     req_body := [("grant_type", JStr "refresh_token");
                  ("refresh_token", JStr refreshToken);
                  ("client_id", clientId client);
                  ("client_secret", clientSecret client)] |}.

Definition refreshToken (client : OAuthClient) (refreshToken : string)
  : M (option OAuthToken) :=
  try_catch
    (response ← fetch (refreshRequest client refreshToken);
     if negb (resp_ok response) then mret None    (* logged with response.text() *)
     else
       tokenResponse ← JSON.parse (resp_body response);
       mret (Token.ofJSON tokenResponse))
    (fun error => mret None).

(** The first half of [getValidToken], its [if (existingToken) { ... }]
    block. [Some t]: the block has returned [t]; [None]: the code goes on to
    the authentication callback. *)
Definition useExisting (client : OAuthClient) : M (option OAuthToken) :=
  existingToken ← getStoredToken;
  match existingToken with
  | Some existingToken =>
      expired ← isTokenExpired existingToken;
      if negb expired then mret (Some existingToken)
      else if JS.truthy_str (refresh_token existingToken) then
        refreshedToken ←
          refreshToken client (default EmptyString (refresh_token existingToken));
        match refreshedToken with
        | Some refreshedToken =>
            let refreshedToken :=
              if negb (JS.truthy_str (refresh_token refreshedToken))
                 && JS.truthy_str (refresh_token existingToken)
              then with_refresh_token (refresh_token existingToken) refreshedToken
              else refreshedToken in
            saveToken refreshedToken;;
            mret (Some refreshedToken)
        | None => mret None
        end
      else mret None
  | None => mret None
  end.

Definition getValidToken (client : OAuthClient)
    (onAuthenticationNeeded : option (M (option OAuthToken)))
  : M (option OAuthToken) :=
  returned ← useExisting client;
  match returned with
  | Some token => mret (Some token)
  | None =>
      match onAuthenticationNeeded with
      | Some onAuthenticationNeeded =>
          newToken ← onAuthenticationNeeded;
          match newToken with
          | Some newToken => saveToken newToken;; mret (Some newToken)
          | None => mret None
          end
      | None => mret None
      end
  end.

(** The diagnostic record of [getTokenInfo]. A [Date] is its epoch
    milliseconds; a key the code leaves out is [None]. *)
Record TokenInfo := mkTokenInfo {
  info_exists : bool;
  info_valid : bool;
  info_expiresAt : option Z;
  info_createdAt : option Z;
  info_hasRefreshToken : option bool
}.

Definition getTokenInfo : M TokenInfo :=
  token ← getStoredToken;
  match token with
  | None =>
      mret {| info_exists := false; info_valid := false; info_expiresAt := None;
              info_createdAt := None; info_hasRefreshToken := None |}
  | Some token =>
      expired ← isTokenExpired token;
      mret {| info_exists := true;
              info_valid := negb expired;
              info_expiresAt :=
                if JS.truthy_num (expires_at token) then expires_at token else None;
              info_createdAt :=
                if JS.truthy_num (created_at token) then created_at token else None;
              info_hasRefreshToken := Some (JS.truthy_str (refresh_token token)) |}
  end.

End Manager.

(** ** OAuthGetToken: the authorization-code flow *)

(** [!c.client_id || !c.client_secret || !c.auth_uri || !c.token_uri],
    read left to right. *)
Definition lacks (credentials : JSValue) (k : string) : M bool :=
  v ← lift (JS.get credentials k);
  mret (negb (JS.truthy v)).

Definition missingRequiredFields (credentials : JSValue) : M bool :=
  a ← lacks credentials "client_id";
  if a : bool then mret true else
  b ← lacks credentials "client_secret";
  if b : bool then mret true else
  c ← lacks credentials "auth_uri";
  if c : bool then mret true else
  lacks credentials "token_uri".

Definition loadCredentialsFromFile (filePath : string) (credentialsKey : option string)
  : M (option JSValue) :=
  found ← fs.existsSync filePath;
  if negb found then mret None
  else
    try_catch
      (credentialsContent ← fs.readFileSync filePath;
       credentialsJson ← JSON.parse credentialsContent;
       credentials ←
         (if JS.truthy_str credentialsKey
          then lift (JS.get credentialsJson (default EmptyString credentialsKey))
          else mret credentialsJson);
       missing ← missingRequiredFields credentials;
       if missing : bool
       then throw (Error "Invalid credentials format - missing required fields")
       else mret (Some credentials))
      (fun error => mret None).

Module Params.

(** [URLSearchParams.set] *)
Fixpoint set (k : string) (v : JSValue) (ps : list (string * JSValue))
  : list (string * JSValue) :=
  match ps with
  | [] => [(k, v)]
  | (k', v') :: ps' =>
      if String.eqb k k' then (k, v) :: ps' else (k', v') :: set k v ps'
  end.

(** [Object.fromEntries(searchParams.entries())[k]]: the last entry for [k]. *)
Fixpoint last (k : string) (q : list (string * string)) : option string :=
  match q with
  | [] => None
  | (k', v) :: q' =>
      match last k q' with
      | Some v' => Some v'
      | None => if String.eqb k k' then Some v else None
      end
  end.

End Params.

Definition prompt_string (p : Prompt) : string :=
  match p with
  | PromptNone => "none"
  | PromptConsent => "consent"
  | PromptSelectAccount => "select_account"
  end.

Definition startLocalOAuthServer (redirectUri : JSValue) : M Z :=
  match redirectUri with
  | JStr uri =>
      fun w =>
        match url_port (env w) uri with
        | None => (Throw (TypeError "Invalid URL"), w)
        | Some urlPort =>
            let port := JS.or_num urlPort 8080 in
            if port_busy (env w) port || bool_decide (port ∈ listening w)
            then (Throw (SystemError "EADDRINUSE"), w)
            else (Return port, set_listening (cons port) w)
        end
  | _ => throw (TypeError "Invalid URL")
  end.

Definition server_close (server : Z) : M unit :=
  modify (set_listening (filter (fun p => p ≠ server))).

(** The listener's handlers, run on the events in their order of arrival
    until one resolves the promise; the timer resolves it [timeoutSeconds]
    after the wait began. *)
Fixpoint waitLoop (deadline : Z) (signal : bool) (events : list (Z * CallbackEvent))
  : M (option string) :=
  match events with
  | [] => mret None                                  (* the timer fires *)
  | (t, ev) :: events' =>
      if deadline <=? t then mret None               (* the timer fires first *)
      else
        match ev with
        | Abort => if signal then mret None else waitLoop deadline signal events'
        | HttpRequest None => waitLoop deadline signal events'
        | HttpRequest (Some query) =>
            if JS.truthy_str (Params.last "code" query) then
              modify (set_replies (cons 200));;
              mret (Params.last "code" query)
            else if JS.truthy_str (Params.last "error" query) then
              modify (set_replies (cons 400));;
              mret None
            else waitLoop deadline signal events'
        end
  end.

(** The timer is set for [timeoutSeconds * 1000] ms, the delay the code
    passes to [setTimeout]: see [timer_range] for the delays it takes as
    they are given. *)
Definition waitForOAuthCallback (server : Z) (timeoutSeconds : Z) (signal : bool)
  : M (option string) :=
  events ← gets (fun w => arrivals (env w));
  waitLoop (timeoutSeconds * 1000) signal events.

Definition execAsync (url : AuthUrl) : M unit :=
  fun w => (if exec_ok (env w) then Return tt else Throw (Error "Command failed"),
            set_opened (cons url) w).

Definition openBrowser (url : AuthUrl) : M unit :=
  try_catch (execAsync url) (fun error => mret tt).

Section OAuthGetToken.

Variable credentials : JSValue.

Definition codeRequest (authCode : string) (redirectUri : JSValue) : M Request :=
  client_id ← lift (JS.get credentials "client_id");
  client_secret ← lift (JS.get credentials "client_secret");
  token_uri ← lift (JS.get credentials "token_uri");
  mret {| req_url := token_uri;
          req_method := "POST";
          req_content_type := "application/x-www-form-urlencoded";
          req_body := [("client_id", client_id);
                       ("client_secret", client_secret);
                       ("code", JStr authCode);
                       ("grant_type", JStr "authorization_code");
                       ("redirect_uri", redirectUri)] |}.

Definition authorizationUrl (options : OAuthGetTokenOptions) (redirectUri : JSValue)
  : M AuthUrl :=
  client_id ← lift (JS.get credentials "client_id");
  let authParams := [("client_id", client_id);
                     ("redirect_uri", redirectUri);
                     ("scope", JStr (scope_opt options));
                     ("response_type", JStr "code")] in
  let authParams :=
    if bool_decide (includeOfflineAccess options = Some true)
    then Params.set "access_type" (JStr "offline") authParams else authParams in
  let authParams :=
    if JS.truthy_str (loginHint options)
    then Params.set "login_hint" (JStr (default EmptyString (loginHint options))) authParams
    else authParams in
  let authParams :=
    match prompt options with
    | Some p => Params.set "prompt" (JStr (prompt_string p)) authParams
    | None => authParams
    end in
  auth_uri ← lift (JS.get credentials "auth_uri");
  mret {| auth_base := auth_uri; auth_params := authParams |}.

(** [Some code]: the [try] statement completed and left [authCode = code];
    [None]: its [catch] clause returned [null] from [getToken]. *)
Definition getToken (options : OAuthGetTokenOptions) : M (option OAuthToken) :=
  modify (set_flows (cons options));;
  redirect_uris ← lift (JS.get credentials "redirect_uris");
  redirectUri ← lift (JS.first redirect_uris);
  started ← settle (startLocalOAuthServer redirectUri);
  match started with
  | Throw error => mret None      (* catch: return null; finally: server unassigned *)
  | Return server =>
      completed ←
        try_finally
          (try_catch
             (authUrl ← authorizationUrl options redirectUri;
              openBrowser authUrl;;
              authCode ← waitForOAuthCallback server
                           (JS.or_num (timeoutSeconds options) 300) (signal options);
              mret (Some authCode))
             (fun error => mret None))
          (server_close server);
      match completed with
      | None => mret None
      | Some authCode =>
          if negb (JS.truthy_str authCode) then mret None
          else
            tokenRequest ← codeRequest (default EmptyString authCode) redirectUri;
            try_catch
              (response ← fetch tokenRequest;
               if negb (resp_ok response)
               then throw (Error "HTTP error!")
               else
                 tokenResponse ← JSON.parse (resp_body response);
                 mret (Token.ofJSON tokenResponse))
              (fun error => mret None)
      end
  end.

End OAuthGetToken.

(** ** authenticateOAuth: the orchestrator *)

Inductive CredentialsInput : Type :=
| CredentialsPath (filePath : string)     (* typeof credentialsPathOrData === 'string' *)
| CredentialsData (data : JSValue).       (* an object *)

Module Auth.

Record Options := mkOptions {
  scope : string;
  tokenDirectory : option string;
  tokenFileName : option string;
  credentialsKey : option string;
  timeoutSeconds : option Z;
  includeOfflineAccess : option bool;
  maxTokenLifetimeHours : option Z;
  loginHint : option string;
  prompt : option Prompt;
  signal : bool
}.

End Auth.

(** [Some c]: the credentials the input resolves to; [None]: the file could
    not be loaded and [authenticateOAuth] returns [null]. *)
Definition resolveCredentials (credentialsPathOrData : CredentialsInput)
    (credentialsKey : option string) : M (option JSValue) :=
  match credentialsPathOrData with
  | CredentialsPath filePath => loadCredentialsFromFile filePath credentialsKey
  | CredentialsData data =>
      keyed ← (if JS.truthy_str credentialsKey
               then lift (JS.has (default EmptyString credentialsKey) data)
               else mret false);
      if keyed : bool then
        c ← lift (JS.get data (default EmptyString credentialsKey)); mret (Some c)
      else
        installed ← lift (JS.has "installed" data);
        if installed : bool then
          c ← lift (JS.get data "installed"); mret (Some c)
        else
          web ← lift (JS.has "web" data);
          if web : bool then
            c ← lift (JS.get data "web"); mret (Some c)
          else mret (Some data)
  end.

(** The options [authenticateOAuth] builds its token manager from. *)
Definition tokenManagerOptions (options : Auth.Options) (cwd : string)
  : TokenManagerOptions :=
  {| tokenDirectory := Some (JS.or_str (Auth.tokenDirectory options) cwd);
     tokenFileName := Some (JS.or_str (Auth.tokenFileName options) "oauth-token.json");
     expirationBufferMinutes := None;
     maxTokenLifetimeHours := Auth.maxTokenLifetimeHours options |}.

Definition wantOfflineAccess (options : Auth.Options) : bool :=
  negb (bool_decide (Auth.includeOfflineAccess options = Some false)).

(** The callback [authenticateOAuth] hands to [getValidToken]. *)
Definition onAuthenticationNeeded (options : Auth.Options)
    (tokenManager : OAuthTokenManager) (credentials : JSValue)
  : M (option OAuthToken) :=
  let effectivePrompt := Auth.prompt options in
  effectivePrompt ←
    (if negb (bool_decide (is_Some effectivePrompt)) && wantOfflineAccess options
     then
       storedToken ← getStoredToken tokenManager;
       match storedToken with
       | None => mret (Some PromptConsent)
       | Some storedToken =>
           if negb (JS.truthy_str (refresh_token storedToken))
           then mret (Some PromptConsent)
           else mret effectivePrompt
       end
     else mret effectivePrompt);
  let authOptions :=
    {| scope_opt := Auth.scope options;
       timeoutSeconds := Some (JS.or_num (Auth.timeoutSeconds options) 300);
       includeOfflineAccess := Some (wantOfflineAccess options);
       loginHint := Auth.loginHint options;
       prompt := effectivePrompt;
       signal := Auth.signal options |} in
  getToken credentials authOptions.

Definition authenticateOAuth (credentialsPathOrData : CredentialsInput)
    (options : Auth.Options) : M (option OAuthToken) :=
  resolved ← resolveCredentials credentialsPathOrData (Auth.credentialsKey options);
  match resolved with
  | None => mret None
  | Some credentials =>
      missing ← missingRequiredFields credentials;
      if missing : bool then mret None
      else
        cwd ← gets (fun w => cwd (env w));
        tokenManager ← lift (constructor (tokenManagerOptions options cwd));
        client_id ← lift (JS.get credentials "client_id");
        client_secret ← lift (JS.get credentials "client_secret");
        token_uri ← lift (JS.get credentials "token_uri");
        let oauthClient :=
          {| clientId := client_id; clientSecret := client_secret; tokenUri := token_uri |} in
        existingToken ← getStoredToken tokenManager;
        getValidToken tokenManager oauthClient
          (Some (onAuthenticationNeeded options tokenManager credentials))
  end.

Definition parseCredentialsFromString (jsonString : Text) (credentialsKey : option string)
  : M (option JSValue) :=
  try_catch
    (parsed ← JSON.parse jsonString;
     credentials ←
       (if JS.truthy_str credentialsKey
        then lift (JS.get parsed (default EmptyString credentialsKey))
        else mret parsed);
     missing ← missingRequiredFields credentials;
     if missing : bool
     then throw (Error "Invalid credentials format - missing required fields")
     else mret (Some credentials))
    (fun error => mret None).

(** * Vocabulary of the properties *)

(** The token a store holds: the file is there, can be read, parses, and
    holds a value of the token type. *)
Definition stored (this : OAuthTokenManager) (w : World) : option StoredOAuthToken :=
  match files w !! tokenPath this with
  | Some (Readable (JsonText v)) => Token.ofJSON v
  | _ => None
  end.

(** The code tests optional numbers for truth: an absent field and a field
    holding 0 are both unset to it. *)
Definition unset (x : option Z) : Prop := x = None \/ x = Some 0.
Definition set_to (x : option Z) (v : Z) : Prop := x = Some v /\ v <> 0.

(** The answer of [isTokenExpired] at a clock reading [now]. *)
Definition expired_at (this : OAuthTokenManager) (now : Z) (token : StoredOAuthToken)
  : bool :=
  negb (JS.truthy_num (expires_at token))
  || (JS.truthy_num (maxTokenLifetime this) && JS.truthy_num (created_at token)
      && (default 0 (created_at token) + default 0 (maxTokenLifetime this)
          - expirationBuffer this <=? now))
  || (default 0 (expires_at token) - expirationBuffer this <=? now).

(** What a refresh exchange yields, by what [fetch] settles to. *)
Definition refreshed_of (r : FetchResult) : option OAuthToken :=
  match r with
  | NetworkError => None
  | Responded response =>
      if resp_ok response then
        match resp_body response with
        | JsonText v => Token.ofJSON v
        | Garbage _ => None
        end
      else None
  end.

(** The refresh exchange fails: a transport error or a non-success status. *)
Definition refresh_fails (r : FetchResult) : Prop :=
  r = NetworkError \/ exists response, r = Responded response /\ resp_ok response = false.

(** No token is stored: the token file is missing, cannot be read, or is
    not JSON. These are the cases in which the code's [getStoredToken], which
    casts whatever [JSON.parse] yields, has nothing to cast. *)
Definition nothing_stored (this : OAuthTokenManager) (w : World) : Prop :=
  forall v, files w !! tokenPath this <> Some (Readable (JsonText v)).

(** A success response with a JSON body holds a token of the declared
    type, as the code's cast of [response.json()] takes it to. *)
Definition typed_response (r : FetchResult) : Prop :=
  forall response body,
    r = Responded response -> resp_ok response = true ->
    resp_body response = JsonText body -> is_Some (Token.ofJSON body).

(** [inert m]: [m] leaves the world exactly as it finds it. *)
Definition inert {A} (m : M A) : Prop := forall w, snd (m w) = w.

(** [frame w w']: from [w] to [w'] nothing happened to the environment, the
    files, the directories, the open listeners or the record of flows. The
    clock may have been read, the browser opened, a request answered. *)
Definition frame (w w' : World) : Prop :=
  env w' = env w /\ files w' = files w /\ dirs w' = dirs w
  /\ readonly w' = readonly w /\ listening w' = listening w /\ flows w' = flows w.

Definition quiet {A} (m : M A) : Prop := forall w, frame w (snd (m w)).

(** The event carries an authorization code. *)
Definition carries_code (ev : CallbackEvent) : bool :=
  match ev with
  | HttpRequest (Some query) => JS.truthy_str (Params.last "code" query)
  | _ => false
  end.

(** No callback request arrives before the timer fires. *)
Definition no_request_within (deadline : Z) (events : list (Z * CallbackEvent)) : Prop :=
  forall t query, (t, HttpRequest query) ∈ events -> deadline <= t.

(** The signal fires before any callback request has arrived. *)
Definition cancelled_first (events : list (Z * CallbackEvent)) : Prop :=
  exists pre t post,
    events = (pre ++ (t, Abort) :: post)%list
    /\ forall t' query, (t', HttpRequest query) ∉ pre.

(** The prompt the callback of [authenticateOAuth] settles on, given what is
    stored, and the options it calls [getToken] with. *)
Definition effectivePrompt_of (options : Auth.Options) (st : option StoredOAuthToken)
  : option Prompt :=
  match Auth.prompt options with
  | Some p => Some p
  | None =>
      if wantOfflineAccess options then
        match st with
        | None => Some PromptConsent
        | Some storedToken =>
            if negb (JS.truthy_str (refresh_token storedToken))
            then Some PromptConsent else None
        end
      else None
  end.

Definition authOptions_of (options : Auth.Options) (st : option StoredOAuthToken)
  : OAuthGetTokenOptions :=
  {| scope_opt := Auth.scope options;
     timeoutSeconds := Some (JS.or_num (Auth.timeoutSeconds options) 300);
     includeOfflineAccess := Some (wantOfflineAccess options);
     loginHint := Auth.loginHint options;
     prompt := effectivePrompt_of options st;
     signal := Auth.signal options |}.

(** ** Scenarios *)

Module Scenario.

Definition tokenFile : string := "/home/u/tokens/token.json".

Definition options1 : TokenManagerOptions :=
  {| tokenFileName := None;
     tokenDirectory := Some "/home/u/tokens";
     expirationBufferMinutes := Some 0;
     maxTokenLifetimeHours := Some 1 |}.

(** The manager [new OAuthTokenManager(options1)] is. *)
Definition manager1 : OAuthTokenManager :=
  {| tokenPath := tokenFile; expirationBuffer := 300000;
     maxTokenLifetime := Some 3600000 |}.

Definition client1 : OAuthClient :=
  {| clientId := JStr "id"; clientSecret := JStr "secret";
     tokenUri := JStr "https://example.org/token" |}.

(** Issued by the server for two hours. *)
Definition issued : OAuthToken :=
  mkToken "A" (Some "R") 7200 "Bearer" None None None.

(** [issued] as [manager1] saves it at time 1000000. *)
Definition kept : StoredOAuthToken := with_times 1000000 4600000 issued.

(** A refresh response without a refresh token. *)
Definition renewed : OAuthToken :=
  mkToken "B" None 3600 "Bearer" None None None.

Definition credentials1 : JSValue :=
  JObj [("client_id", JStr "id");
        ("client_secret", JStr "secret");
        ("auth_uri", JStr "https://example.org/auth");
        ("token_uri", JStr "https://example.org/token");
        ("redirect_uris", JArr [JStr "http://localhost:9326/oauth2callback"])].

(** The shape of a downloaded Google credentials file. *)
Definition googleCredentials : JSValue := JObj [("installed", credentials1)].

Definition env1 (now : Z) (net : FetchResult) (events : list (Z * CallbackEvent))
  : Env :=
  {| clock := fun n => now + Z.of_nat n;
     cwd := "/home/u/tokens";
     fetch_result := fun _ => net;
     url_port := fun _ => Some (Some 9326);
     port_busy := fun _ => false;
     exec_ok := true;
     arrivals := events |}.

Definition world (e : Env) (fs : gmap string File) : World :=
  mkWorld e fs {["/home/u/tokens"]} false 0 [] [] [] [].

Definition holding (t : StoredOAuthToken) : gmap string File :=
  {[tokenFile := Readable (JsonText (Token.toJSON t))]}.

(** Nothing stored, at time 1000000. *)
Definition fresh : World := world (env1 1000000 NetworkError []) ∅.

(** [kept] stored, and still good at time 2000000. *)
Definition good : World := world (env1 2000000 NetworkError []) (holding kept).

(** [kept] stored and expired at time 5000000; the network is down. *)
Definition stale_offline : World :=
  world (env1 5000000 NetworkError []) (holding kept).

(** [kept] stored and expired; the server answers a refresh with [renewed]. *)
Definition stale_online : World :=
  world (env1 5000000
           (Responded (mkResponse true 200 (JsonText (Token.toJSON renewed)))) [])
        (holding kept).

(** The token file is not JSON. *)
Definition corrupt : World :=
  world (env1 1000000 NetworkError [])
        {[tokenFile := Readable (Garbage "{access_token:")]}.

(** Nothing stored; the callback request comes 400 s into the wait. *)
Definition late_callback : World :=
  world (env1 1000000 NetworkError
           [(400000, HttpRequest (Some [("code", "4/abc")]))]) ∅.

(** Google's file on disk. *)
Definition with_google_file : World :=
  world (env1 1000000 NetworkError [])
        {["/home/u/credentials.json" := Readable (JsonText googleCredentials)]}.

Definition authOptions1 : Auth.Options :=
  {| Auth.scope := "contacts.readonly";
     Auth.tokenDirectory := None;
     Auth.tokenFileName := Some "token.json";
     Auth.credentialsKey := None;
     Auth.timeoutSeconds := None;
     Auth.includeOfflineAccess := None;
     Auth.maxTokenLifetimeHours := None;
     Auth.loginHint := None;
     Auth.prompt := None;
     Auth.signal := false |}.

Definition flowOptions1 : OAuthGetTokenOptions :=
  {| scope_opt := "contacts.readonly";
     timeoutSeconds := None;
     includeOfflineAccess := Some true;
     loginHint := None;
     prompt := Some PromptConsent;
     signal := false |}.

End Scenario.

(** ** Vocabulary of the further properties *)

(** The names an object has from [Object.prototype], besides its own: the
    [in] operator finds them, and reading them yields what the prototype
    holds. [JSValue] has own properties only. *)
Definition Object_prototype : list string :=
  ["constructor"; "__defineGetter__"; "__defineSetter__"; "hasOwnProperty";
   "__lookupGetter__"; "__lookupSetter__"; "isPrototypeOf"; "propertyIsEnumerable";
   "toString"; "valueOf"; "__proto__"; "toLocaleString"].

(** The delays [setTimeout] takes as they are given: outside this range it
    sets the delay to 1 ms. *)
Definition timer_range (ms : Z) : Prop := 1 <= ms <= 2147483647.

(** The four required fields of credentials are there and truthy. *)
Definition complete (props : list (string * JSValue)) : bool :=
  JS.truthy (default JUndefined (JS.assoc "client_id" props))
  && JS.truthy (default JUndefined (JS.assoc "client_secret" props))
  && JS.truthy (default JUndefined (JS.assoc "auth_uri" props))
  && JS.truthy (default JUndefined (JS.assoc "token_uri" props)).

(** The event leaves the wait on the listener as it is: a request without
    a URL, a request with neither a code nor an error, an abort when no
    signal was passed. *)
Definition ignored (signal : bool) (ev : CallbackEvent) : bool :=
  match ev with
  | HttpRequest None => true
  | HttpRequest (Some query) =>
      negb (JS.truthy_str (Params.last "code" query))
      && negb (JS.truthy_str (Params.last "error" query))
  | Abort => negb signal
  end.

(** What the wait on the listener comes to: the code captured, if any, and
    the status sent in reply, if any. *)
Fixpoint wait_outcome (deadline : Z) (signal : bool) (events : list (Z * CallbackEvent))
  : option string * option Z :=
  match events with
  | [] => (None, None)
  | (t, ev) :: events' =>
      if deadline <=? t then (None, None)
      else if ignored signal ev then wait_outcome deadline signal events'
      else match ev with
           | HttpRequest (Some query) =>
               if JS.truthy_str (Params.last "code" query)
               then (Params.last "code" query, Some 200)
               else (None, Some 400)
           | _ => (None, None)
           end
  end.

(** The port a listener for the redirect URI binds, if it can. *)
Definition listen_port (w : World) (redirectUri : JSValue) : option Z :=
  match redirectUri with
  | JStr uri =>
      match url_port (env w) uri with
      | Some urlPort =>
          let port := JS.or_num urlPort 8080 in
          if port_busy (env w) port || bool_decide (port ∈ listening w)
          then None else Some port
      | None => None
      end
  | _ => None
  end.

(** The request that exchanges a code, for credentials with these
    properties. *)
Definition exchange_request (props : list (string * JSValue)) (authCode : string)
    (redirectUri : JSValue) : Request :=
  {| req_url := default JUndefined (JS.assoc "token_uri" props);
     req_method := "POST";
     req_content_type := "application/x-www-form-urlencoded";
     req_body := [("client_id", default JUndefined (JS.assoc "client_id" props));
                  ("client_secret", default JUndefined (JS.assoc "client_secret" props));
                  ("code", JStr authCode);
                  ("grant_type", JStr "authorization_code");
                  ("redirect_uri", redirectUri)] |}.

(** The authorization URL, for credentials with these properties. *)
Definition authUrl_of (props : list (string * JSValue)) (options : OAuthGetTokenOptions)
    (redirectUri : JSValue) : AuthUrl :=
  let authParams := [("client_id", default JUndefined (JS.assoc "client_id" props));
                     ("redirect_uri", redirectUri);
                     ("scope", JStr (scope_opt options));
                     ("response_type", JStr "code")] in
  let authParams :=
    if bool_decide (includeOfflineAccess options = Some true)
    then Params.set "access_type" (JStr "offline") authParams else authParams in
  let authParams :=
    if JS.truthy_str (loginHint options)
    then Params.set "login_hint" (JStr (default EmptyString (loginHint options)))
           authParams
    else authParams in
  let authParams :=
    match prompt options with
    | Some p => Params.set "prompt" (JStr (prompt_string p)) authParams
    | None => authParams
    end in
  {| auth_base := default JUndefined (JS.assoc "auth_uri" props);
     auth_params := authParams |}.

(** What is stored cannot be used, and cannot be refreshed: no token is
    stored, or the stored token, of the declared type, is expired and has no
    refresh token. *)
Definition unusable (this : OAuthTokenManager) (w : World) : Prop :=
  nothing_stored this w
  \/ exists token, stored this w = Some token
                   /\ expired_at this (clock (env w) (tick w)) token = true
                   /\ JS.truthy_str (refresh_token token) = false.

(** The world where the command that opens the browser succeeds, or fails. *)
Definition set_exec_ok (b : bool) (w : World) : World :=
  mkWorld (mkEnv (clock (env w)) (cwd (env w)) (fetch_result (env w))
                 (url_port (env w)) (port_busy (env w)) b (arrivals (env w)))
          (files w) (dirs w) (readonly w) (tick w) (listening w)
          (opened w) (replies w) (flows w).

Module Case.

(** [Scenario.kept] stored, at time 6000000. *)
Definition later : World :=
  Scenario.world (Scenario.env1 6000000 NetworkError []) (Scenario.holding Scenario.kept).

(** [Scenario.kept] stored and expired; the server would answer a refresh,
    and the medium refuses writes. *)
Definition stale_readonly : World :=
  mkWorld (Scenario.env1 5000000
             (Responded (mkResponse true 200
                           (JsonText (Token.toJSON Scenario.renewed)))) [])
          (Scenario.holding Scenario.kept) {["/home/u/tokens"]} true 0 [] [] [] [].

(** Nothing stored; the callback request brings a code 2 s into the wait,
    after a request for something else, and the server exchanges the code
    for [Scenario.issued]. *)
Definition events1 : list (Z * CallbackEvent) :=
  [(1500, HttpRequest (Some [("favicon", "ico")]));
   (2000, HttpRequest (Some [("code", "4/abc"); ("scope", "contacts.readonly")]))].

Definition granting : World :=
  Scenario.world
    (Scenario.env1 1000000
       (Responded (mkResponse true 200 (JsonText (Token.toJSON Scenario.issued))))
       events1) ∅.

(** Flat credentials on disk. *)
Definition with_flat_file : World :=
  Scenario.world (Scenario.env1 1000000 NetworkError [])
    {["/home/u/credentials.json" := Readable (JsonText Scenario.credentials1)]}.

(** Credentials with the four required fields and no redirect URIs. *)
Definition no_redirects : JSValue :=
  JObj [("client_id", JStr "id");
        ("client_secret", JStr "secret");
        ("auth_uri", JStr "https://example.org/auth");
        ("token_uri", JStr "https://example.org/token")].

End Case.

(** * Properties *)

(** ** Running computations *)

Lemma run_bind {A B} (m : M A) (k : A -> M B) w :
  (m ≫= k) w = match m w with
               | (Return a, w') => k a w'
               | (Throw e, w') => (Throw e, w')
               end.
Proof. reflexivity. Qed.

Lemma run_bind_return {A B} (m : M A) (k : A -> M B) w a w' :
  m w = (Return a, w') -> (m ≫= k) w = k a w'.
Proof. intros H. rewrite run_bind, H. reflexivity. Qed.

Lemma run_gets {A B} (f : World -> A) (k : A -> M B) w :
  (gets f ≫= k) w = k (f w) w.
Proof. reflexivity. Qed.

Lemma run_lift_return {A B} (a : A) (k : A -> M B) w :
  (lift (Return a) ≫= k) w = k a w.
Proof. reflexivity. Qed.

Lemma run_lift_throw {A B} e (k : A -> M B) w :
  (lift (Throw e) ≫= k) w = (Throw e, w).
Proof. reflexivity. Qed.

(** The finalizer of [try ... finally] runs whichever way the body ends. *)
Lemma try_finally_runs {A} (body : M A) (fin : M unit) w :
  exists o w1,
    body w = (o, w1) /\ snd (try_finally body fin w) = snd (fin w1).
Proof.
  unfold try_finally. destruct (body w) as [o w1].
  exists o, w1. split; [reflexivity|].
  destruct (fin w1) as [[u|e] w2]; reflexivity.
Qed.

(** ** Computations that only read *)

Lemma inert_ret {A} (a : A) : inert (mret a).
Proof. intros w. reflexivity. Qed.

Lemma inert_throw {A} e : inert (@throw A e).
Proof. intros w. reflexivity. Qed.

Lemma inert_lift {A} (o : Outcome A) : inert (lift o).
Proof. intros w. reflexivity. Qed.

Lemma inert_gets {A} (f : World -> A) : inert (gets f).
Proof. intros w. reflexivity. Qed.

Lemma inert_bind {A B} (m : M A) (k : A -> M B) :
  inert m -> (forall a, inert (k a)) -> inert (m ≫= k).
Proof.
  intros Hm Hk w. rewrite run_bind. specialize (Hm w).
  destruct (m w) as [[a|e] w1]; cbn [snd] in Hm; subst w1; [apply Hk | reflexivity].
Qed.

Lemma inert_try_catch {A} (m : M A) h :
  inert m -> (forall e, inert (h e)) -> inert (try_catch m h).
Proof.
  intros Hm Hh w. unfold try_catch. specialize (Hm w).
  destruct (m w) as [[a|e] w1]; cbn [snd] in Hm; subst w1; [reflexivity | apply Hh].
Qed.

Lemma inert_if {A} (b : bool) (m1 m2 : M A) :
  inert m1 -> inert m2 -> inert (if b then m1 else m2).
Proof. destruct b; auto. Qed.

Lemma inert_fetch r : inert (fetch r).
Proof. intros w. unfold fetch. destruct (fetch_result _ _); reflexivity. Qed.

Lemma inert_parse t : inert (JSON.parse t).
Proof. destruct t; intros w; reflexivity. Qed.

Lemma inert_existsSync p : inert (fs.existsSync p).
Proof. apply inert_gets. Qed.

Lemma inert_readFileSync p : inert (fs.readFileSync p).
Proof.
  intros w. unfold fs.readFileSync.
  destruct (files w !! p) as [[|t]|]; try reflexivity.
  destruct (bool_decide _); reflexivity.
Qed.

Create HintDb inert.
#[export] Hint Resolve inert_ret inert_throw inert_lift inert_gets inert_fetch
  inert_parse inert_existsSync inert_readFileSync : inert.
#[export] Hint Extern 2 (inert (_ ≫= _)) => apply inert_bind; [|intro] : inert.
#[export] Hint Extern 2 (inert (try_catch _ _)) =>
  apply inert_try_catch; [|intro] : inert.
#[export] Hint Extern 2 (inert (if _ then _ else _)) => apply inert_if : inert.
#[export] Hint Extern 3 (inert (match ?x with _ => _ end)) => destruct x : inert.

Ltac inert := auto 20 with inert.

(** A step of an inert computation: it throws, or it hands a value on. *)
Lemma inert_step {A B} (m : M A) (k : A -> M B) w :
  inert m ->
  (exists e, (m ≫= k) w = (Throw e, w))
  \/ (exists a, m w = (Return a, w) /\ (m ≫= k) w = k a w).
Proof.
  intros Hm. specialize (Hm w). rewrite run_bind.
  destruct (m w) as [[a|e] w1]; cbn [snd] in Hm; subst w1; eauto.
Qed.

Lemma inert_run {A} (m : M A) w : inert m -> m w = (fst (m w), w).
Proof. intros Hm. rewrite <- (Hm w) at 3. apply surjective_pairing. Qed.

(** ** Frames *)

Lemma frame_refl w : frame w w.
Proof. repeat split. Qed.

Lemma frame_trans w1 w2 w3 : frame w1 w2 -> frame w2 w3 -> frame w1 w3.
Proof.
  unfold frame. intros (?&?&?&?&?&?) (?&?&?&?&?&?). repeat split; congruence.
Qed.

Lemma inert_quiet {A} (m : M A) : inert m -> quiet m.
Proof. intros Hm w. rewrite Hm. apply frame_refl. Qed.

Lemma quiet_ret {A} (a : A) : quiet (mret a).
Proof. intros w. apply frame_refl. Qed.

Lemma quiet_throw {A} e : quiet (@throw A e).
Proof. intros w. apply frame_refl. Qed.

Lemma quiet_lift {A} (o : Outcome A) : quiet (lift o).
Proof. intros w. apply frame_refl. Qed.

Lemma quiet_gets {A} (f : World -> A) : quiet (gets f).
Proof. intros w. apply frame_refl. Qed.

Lemma quiet_bind {A B} (m : M A) (k : A -> M B) :
  quiet m -> (forall a, quiet (k a)) -> quiet (m ≫= k).
Proof.
  intros Hm Hk w. rewrite run_bind. specialize (Hm w).
  destruct (m w) as [[a|e] w1]; simpl in *; [|exact Hm].
  eapply frame_trans; [exact Hm | apply Hk].
Qed.

Lemma quiet_try_catch {A} (m : M A) h :
  quiet m -> (forall e, quiet (h e)) -> quiet (try_catch m h).
Proof.
  intros Hm Hh w. unfold try_catch. specialize (Hm w).
  destruct (m w) as [[a|e] w1]; simpl in *; [exact Hm|].
  eapply frame_trans; [exact Hm | apply Hh].
Qed.

Lemma quiet_if {A} (b : bool) (m1 m2 : M A) :
  quiet m1 -> quiet m2 -> quiet (if b then m1 else m2).
Proof. destruct b; auto. Qed.

Lemma quiet_Date_now : quiet Date_now.
Proof. intros w. repeat split. Qed.

Lemma quiet_fetch r : quiet (fetch r).
Proof. apply inert_quiet, inert_fetch. Qed.

Lemma quiet_parse t : quiet (JSON.parse t).
Proof. apply inert_quiet, inert_parse. Qed.

Lemma quiet_reply n : quiet (modify (set_replies (cons n))).
Proof. intros w. repeat split. Qed.

Lemma quiet_execAsync url : quiet (execAsync url).
Proof. intros w. repeat split. Qed.

Create HintDb quiet.
#[export] Hint Resolve quiet_ret quiet_throw quiet_lift quiet_gets quiet_Date_now
  quiet_fetch quiet_parse quiet_reply quiet_execAsync : quiet.
#[export] Hint Extern 2 (quiet (_ ≫= _)) => apply quiet_bind; [|intro] : quiet.
#[export] Hint Extern 2 (quiet (try_catch _ _)) =>
  apply quiet_try_catch; [|intro] : quiet.
#[export] Hint Extern 2 (quiet (if _ then _ else _)) => apply quiet_if : quiet.
#[export] Hint Extern 3 (quiet (match ?x with _ => _ end)) => destruct x : quiet.

Ltac quiet := auto 20 with quiet.

(** ** The token file *)

(** What [JSON.parse] and the cast make of a saved token is the token. *)
Lemma ofJSON_toJSON (t : StoredOAuthToken) : Token.ofJSON (Token.toJSON t) = Some t.
Proof.
  destruct t as [a [r|] i y [s|] [e|] [c|]]; reflexivity.
Qed.

Lemma getStoredToken_run this w :
  getStoredToken this w = (Return (stored this w), w).
Proof.
  unfold getStoredToken, hasStoredToken, stored, fs.existsSync, gets.
  rewrite run_bind.
  destruct (files w !! tokenPath this) as [[|[raw|v]]|] eqn:Hf; simpl.
  - unfold try_catch, fs.readFileSync. rewrite run_bind, Hf. reflexivity.
  - unfold try_catch, fs.readFileSync. rewrite run_bind, Hf. reflexivity.
  - unfold try_catch, fs.readFileSync. rewrite run_bind, Hf. reflexivity.
  - destruct (bool_decide (tokenPath this ∈ dirs w)) eqn:Hd; simpl; [|reflexivity].
    unfold try_catch, fs.readFileSync. rewrite run_bind, Hf, Hd. reflexivity.
Qed.

Lemma inert_getStoredToken this : inert (getStoredToken this).
Proof. intros w. rewrite getStoredToken_run. reflexivity. Qed.

Lemma stored_frame this w w' : frame w w' -> stored this w' = stored this w.
Proof. intros (_ & Hf & _). unfold stored. rewrite Hf. reflexivity. Qed.

Lemma nothing_stored_none this w : nothing_stored this w -> stored this w = None.
Proof.
  intros Hn. unfold stored.
  destruct (files w !! tokenPath this) as [[|[raw|v]]|] eqn:Hf; try reflexivity.
  exfalso. exact (Hn v Hf).
Qed.

(** C9. [getStoredToken] always returns and never throws; it leaves the
    world as it was; and it returns the absent value when the file is
    missing, when it cannot be read, and when its content is not JSON. *)
Theorem getStoredToken_degrades (this : OAuthTokenManager) (w : World) :
  (exists r, getStoredToken this w = (Return r, w))
  /\ (files w !! tokenPath this = None ->
      getStoredToken this w = (Return None, w))
  /\ (files w !! tokenPath this = Some Unreadable ->
      getStoredToken this w = (Return None, w))
  /\ (forall raw, files w !! tokenPath this = Some (Readable (Garbage raw)) ->
      getStoredToken this w = (Return None, w)).
Proof.
  rewrite getStoredToken_run. unfold stored.
  split; [eauto|].
  split; [intros ->; reflexivity|].
  split; [intros ->; reflexivity|].
  intros raw ->. reflexivity.
Qed.

Lemma getStoredToken_degrades_witness :
  getStoredToken Scenario.manager1 Scenario.corrupt = (Return None, Scenario.corrupt)
  /\ getStoredToken Scenario.manager1 Scenario.fresh = (Return None, Scenario.fresh).
Proof.
  split.
  - destruct (getStoredToken_degrades Scenario.manager1 Scenario.corrupt)
      as (_ & _ & _ & Hbad).
    apply (Hbad "{access_token:"). reflexivity.
  - destruct (getStoredToken_degrades Scenario.manager1 Scenario.fresh)
      as (_ & Hmissing & _).
    apply Hmissing. reflexivity.
Defined.

(** ** Expiry *)

Lemma truthy_num_set x v : set_to x v -> JS.truthy_num x = true /\ default 0 x = v.
Proof.
  intros [-> Hv]. simpl. split; [|reflexivity].
  destruct (Z.eqb_spec v 0); [contradiction | reflexivity].
Qed.

Lemma truthy_num_unset x : unset x -> JS.truthy_num x = false.
Proof. intros [-> | ->]; reflexivity. Qed.

Lemma truthy_num_cases x : unset x \/ exists v, set_to x v.
Proof.
  destruct x as [v|]; [|left; left; reflexivity].
  destruct (Z.eq_dec v 0) as [-> | Hv]; [left; right; reflexivity|].
  right. exists v. split; [reflexivity | assumption].
Qed.

Lemma isTokenExpired_run this token w :
  isTokenExpired this token w
  = (Return (expired_at this (clock (env w) (tick w)) token),
     if JS.truthy_num (expires_at token) then set_tick S w else w).
Proof.
  unfold isTokenExpired, expired_at.
  destruct (JS.truthy_num (expires_at token)); simpl; [|reflexivity].
  rewrite run_bind. unfold Date_now.
  destruct (JS.truthy_num (maxTokenLifetime this) && JS.truthy_num (created_at token));
    simpl; [|reflexivity].
  destruct (_ <=? _); reflexivity.
Qed.

Lemma quiet_isTokenExpired this token : quiet (isTokenExpired this token).
Proof.
  intros w. rewrite isTokenExpired_run. cbn [snd].
  destruct (JS.truthy_num (expires_at token)); repeat split.
Qed.

Lemma isTokenExpired_false this token w :
  fst (isTokenExpired this token w) = Return false ->
  isTokenExpired this token w = (Return false, set_tick S w).
Proof.
  rewrite isTokenExpired_run. cbn [fst]. intros [= H]. rewrite H.
  unfold expired_at in H.
  destruct (JS.truthy_num (expires_at token)); [reflexivity | discriminate].
Qed.

(** C2. [isTokenExpired] returns true when [expires_at] is unset.
    Otherwise it returns true exactly when [now >= expires_at - buffer], or
    a maximum lifetime is configured, [created_at] is present and
    [now >= created_at + maxLifetime - buffer]; either alone suffices. With
    no maximum lifetime and [expires_at] set it returns false whenever
    [now < expires_at - buffer]. Unset means absent or 0, which the code's
    truth test does not tell apart. The call always returns and writes
    nothing. *)
Theorem isTokenExpired_spec (this : OAuthTokenManager) (token : StoredOAuthToken)
    (w : World) :
  let now := clock (env w) (tick w) in
  let buffer := expirationBuffer this in
  exists b w',
    isTokenExpired this token w = (Return b, w')
    /\ files w' = files w /\ dirs w' = dirs w
    /\ (unset (expires_at token) -> b = true)
    /\ (forall e, set_to (expires_at token) e ->
          (b = true <->
           now >= e - buffer
           \/ exists m c, set_to (maxTokenLifetime this) m /\ set_to (created_at token) c
                          /\ now >= c + m - buffer))
    /\ (forall e, set_to (expires_at token) e -> unset (maxTokenLifetime this) ->
          now < e - buffer -> b = false).
Proof.
  intros now buffer. rewrite isTokenExpired_run. fold now.
  eexists _, _. split; [reflexivity|].
  split; [destruct (JS.truthy_num (expires_at token)); reflexivity|].
  split; [destruct (JS.truthy_num (expires_at token)); reflexivity|].
  unfold expired_at. fold buffer.
  split; [|split].
  - intros Hu. rewrite (truthy_num_unset _ Hu). reflexivity.
  - intros e He. destruct (truthy_num_set _ _ He) as [-> ->]. simpl.
    rewrite orb_true_iff, andb_true_iff, andb_true_iff, !Z.leb_le.
    split.
    + intros [[[Hm Hc] Hx] | Hx]; [right | left; lia].
      destruct (truthy_num_cases (maxTokenLifetime this)) as [Hum | [m Hsm]];
        [rewrite (truthy_num_unset _ Hum) in Hm; discriminate|].
      destruct (truthy_num_cases (created_at token)) as [Huc | [c Hsc]];
        [rewrite (truthy_num_unset _ Huc) in Hc; discriminate|].
      exists m, c. repeat split; try apply Hsm; try apply Hsc.
      destruct (truthy_num_set _ _ Hsm) as [_ Hdm].
      destruct (truthy_num_set _ _ Hsc) as [_ Hdc]. lia.
    + intros [Hx | (m & c & Hsm & Hsc & Hx)]; [right; lia | left].
      destruct (truthy_num_set _ _ Hsm) as [-> ->].
      destruct (truthy_num_set _ _ Hsc) as [-> ->].
      repeat split. lia.
  - intros e He Hum Hlt.
    destruct (truthy_num_set _ _ He) as [-> ->].
    rewrite (truthy_num_unset _ Hum). simpl.
    apply Z.leb_gt. lia.
Qed.

Lemma isTokenExpired_spec_witness :
  fst (isTokenExpired Scenario.manager1 Scenario.kept Scenario.stale_offline)
  = Return true.
Proof.
  destruct (isTokenExpired_spec Scenario.manager1 Scenario.kept Scenario.stale_offline)
    as (b & w' & Hrun & _ & _ & _ & Hiff & _).
  rewrite Hrun. cbn [fst]. f_equal.
  apply (Hiff 4600000); [split; [reflexivity | discriminate]|].
  left. vm_compute. discriminate.
Defined.

(** ** The constructor *)

Lemma constructor_run options this :
  constructor options = Return this ->
  JS.truthy_str (tokenDirectory options) = true
  /\ tokenPath this
     = path.join (default EmptyString (tokenDirectory options))
                 (JS.or_str (tokenFileName options) "token.json")
  /\ expirationBuffer this = JS.or_num (expirationBufferMinutes options) 5 * 60 * 1000
  /\ maxTokenLifetime this
     = (if JS.truthy_num (maxTokenLifetimeHours options)
        then Some (default 0 (maxTokenLifetimeHours options) * 60 * 60 * 1000)
        else None).
Proof.
  unfold constructor. destruct (tokenDirectory options) as [d|]; [|discriminate].
  simpl. destruct (String.eqb d EmptyString); [discriminate|].
  intros [= <-]. simpl. repeat split.
  destruct (maxTokenLifetimeHours options) as [h|]; [|reflexivity].
  simpl. destruct (h =? 0); reflexivity.
Qed.

(** Zero hours is no maximum lifetime. *)
Lemma zero_hours_is_no_policy options this :
  constructor options = Return this ->
  maxTokenLifetimeHours options = Some 0 ->
  maxTokenLifetime this = None.
Proof.
  intros Hc H0. destruct (constructor_run _ _ Hc) as (_ & _ & _ & ->).
  rewrite H0. reflexivity.
Qed.

(** C10. A manager constructed with [expirationBufferMinutes] set to 0 has
    an expiration buffer of five minutes, 300000 ms: the 0 gives way to the
    default. So [isTokenExpired] declares a token expired once
    [now >= expires_at - 300000]. *)
Theorem zero_buffer_is_five_minutes (options : TokenManagerOptions) :
  expirationBufferMinutes options = Some 0 ->
  JS.truthy_str (tokenDirectory options) = true ->
  exists this,
    constructor options = Return this
    /\ expirationBuffer this = 300000
    /\ forall token w e,
         expires_at token = Some e ->
         clock (env w) (tick w) >= e - 300000 ->
         fst (isTokenExpired this token w) = Return true.
Proof.
  intros Hbuf Hdir.
  destruct (constructor options) as [this|err] eqn:Hc.
  - destruct (constructor_run _ _ Hc) as (_ & _ & Hb & _).
    rewrite Hbuf in Hb. change (JS.or_num (Some 0) 5 * 60 * 1000) with 300000 in Hb.
    exists this. split; [reflexivity|]. split; [exact Hb|].
    intros token w e He Hnow. rewrite isTokenExpired_run.
    unfold expired_at. rewrite He, Hb. change (default 0 (Some e)) with e. cbn [fst].
    replace (e - 300000 <=? clock (env w) (tick w)) with true
      by (symmetry; apply Z.leb_le; lia).
    rewrite orb_true_r. reflexivity.
  - exfalso. unfold constructor in Hc.
    destruct (tokenDirectory options) as [d|]; [|discriminate].
    simpl in Hdir. destruct (String.eqb d EmptyString); discriminate.
Qed.

Lemma zero_buffer_is_five_minutes_witness :
  exists this,
    constructor Scenario.options1 = Return this
    /\ expirationBuffer this = 300000
    /\ fst (isTokenExpired this Scenario.kept Scenario.stale_offline) = Return true.
Proof.
  destruct (zero_buffer_is_five_minutes Scenario.options1 eq_refl eq_refl)
    as (this & Hc & Hb & Hexp).
  exists this. split; [exact Hc|]. split; [exact Hb|].
  apply (Hexp Scenario.kept Scenario.stale_offline 4600000); [reflexivity|].
  vm_compute. discriminate.
Defined.

(** ** Saving *)

Lemma saveToken_run this token w :
  readonly w = false ->
  let now := clock (env w) (tick w) in
  let expiresAt :=
    if JS.truthy_num (maxTokenLifetime this)
    then Z.min (now + expires_in token * 1000) (now + default 0 (maxTokenLifetime this))
    else now + expires_in token * 1000 in
  exists w',
    saveToken this token w = (Return tt, w')
    /\ files w' = <[tokenPath this :=
                      Readable (JsonText (Token.toJSON (with_times now expiresAt token)))]>
                  (files w)
    /\ env w' = env w /\ readonly w' = false /\ tick w' = S (tick w)
    /\ listening w' = listening w /\ flows w' = flows w.
Proof.
  intros Hro now expiresAt. unfold saveToken.
  rewrite run_bind. unfold Date_now. fold now. fold expiresAt.
  rewrite run_bind. unfold fs.existsSync, gets. cbn [negb].
  match goal with
  | |- context [negb ?c] => destruct c
  end; cbn [negb].
  - rewrite run_bind. cbv beta iota.
    unfold mret, M_ret, ret at 1. cbv beta iota.
    unfold fs.writeFileSync. cbn. rewrite Hro.
    eexists. split; [reflexivity|]. cbn. repeat split; auto.
  - rewrite run_bind. unfold fs.mkdirSync at 1. cbn. rewrite Hro.
    unfold fs.writeFileSync. cbn. rewrite Hro.
    eexists. split; [reflexivity|]. cbn. repeat split; auto.
Qed.

(** On a medium that refuses writes, [saveToken] throws and stores nothing. *)
Lemma saveToken_readonly this token w :
  readonly w = true ->
  exists e w', saveToken this token w = (Throw e, w') /\ files w' = files w.
Proof.
  intros Hro. unfold saveToken.
  rewrite run_bind. unfold Date_now. cbv beta iota.
  rewrite run_bind. unfold fs.existsSync, gets. cbv beta iota.
  unfold fs.mkdirSync, fs.writeFileSync.
  destruct (negb _); rewrite run_bind; cbn; rewrite Hro; eauto.
Qed.

(** Saving writes files and directories, nothing else. *)
Lemma saveToken_calm this token w :
  env (snd (saveToken this token w)) = env w
  /\ flows (snd (saveToken this token w)) = flows w
  /\ listening (snd (saveToken this token w)) = listening w.
Proof.
  unfold saveToken. rewrite run_bind. unfold Date_now. cbv beta iota.
  rewrite run_bind. unfold fs.existsSync, gets. cbv beta iota.
  unfold fs.mkdirSync, fs.writeFileSync.
  destruct (negb _); rewrite run_bind; cbn; destruct (readonly w) eqn:Hro; cbn;
    rewrite ?Hro; repeat split.
Qed.

(** C1. [saveToken] stores a record whose [created_at] is the time of the
    save and whose [expires_at] is
    [created_at + min(expires_in*1000, maxTokenLifetimeHours*3600*1000)]
    when a maximum lifetime is configured, [created_at + expires_in*1000]
    when it is not; the other fields are the token's. The record replaces
    whatever the file held, reading the store back yields it, and other
    files are untouched. (The constructor takes 0 hours as no maximum
    lifetime; the medium accepts the write.) *)
Theorem saveToken_expiry (options : TokenManagerOptions) (this : OAuthTokenManager)
    (token : OAuthToken) (w : World) :
  constructor options = Return this ->
  readonly w = false ->
  let now := clock (env w) (tick w) in
  let E := expires_in token in
  exists w' saved,
    saveToken this token w = (Return tt, w')
    /\ files w' !! tokenPath this = Some (Readable (JsonText (Token.toJSON saved)))
    /\ getStoredToken this w' = (Return (Some saved), w')
    /\ created_at saved = Some now
    /\ (forall H, set_to (maxTokenLifetimeHours options) H ->
          expires_at saved = Some (now + Z.min (E * 1000) (H * 3600 * 1000)))
    /\ (unset (maxTokenLifetimeHours options) ->
          expires_at saved = Some (now + E * 1000))
    /\ (access_token saved = access_token token
        /\ refresh_token saved = refresh_token token
        /\ expires_in saved = expires_in token
        /\ token_type saved = token_type token
        /\ scope saved = scope token)
    /\ (forall p, p <> tokenPath this -> files w' !! p = files w !! p).
Proof.
  intros Hc Hro now E.
  destruct (constructor_run _ _ Hc) as (_ & _ & _ & Hmax).
  destruct (saveToken_run this token w Hro) as (w' & Hrun & Hfiles & _).
  fold now in Hfiles. fold E in Hfiles.
  eexists w', _. split; [exact Hrun|].
  split; [rewrite Hfiles; apply lookup_insert_eq|].
  split.
  { rewrite getStoredToken_run. unfold stored.
    rewrite Hfiles, lookup_insert_eq, ofJSON_toJSON. reflexivity. }
  split; [reflexivity|].
  split; [|split; [|split]].
  - intros H HH. destruct (truthy_num_set _ _ HH) as [Ht Hd].
    rewrite Hmax, Ht, Hd. destruct HH as [_ HH]. cbn [expires_at with_times].
    unfold JS.truthy_num. change (default 0 (Some ?x)) with x.
    destruct (Z.eqb_spec (H * 60 * 60 * 1000) 0); [lia|].
    cbn [negb]. f_equal. lia.
  - intros Hu. rewrite Hmax, (truthy_num_unset _ Hu). reflexivity.
  - repeat split.
  - intros p Hp. rewrite Hfiles. apply lookup_insert_ne. congruence.
Qed.

Lemma saveToken_expiry_witness :
  exists w' saved,
    saveToken Scenario.manager1 Scenario.issued Scenario.fresh = (Return tt, w')
    /\ getStoredToken Scenario.manager1 w' = (Return (Some saved), w')
    /\ created_at saved = Some 1000000
    /\ expires_at saved = Some 4600000.
Proof.
  destruct (saveToken_expiry Scenario.options1 Scenario.manager1 Scenario.issued
              Scenario.fresh eq_refl eq_refl)
    as (w' & saved & Hrun & _ & Hget & Hc & Hmax & _).
  exists w', saved. split; [exact Hrun|]. split; [exact Hget|]. split; [exact Hc|].
  apply (Hmax 1). split; [reflexivity | discriminate].
Defined.

(** ** getValidToken *)

Lemma refreshToken_run client rt w :
  refreshToken client rt w
  = (Return (refreshed_of (fetch_result (env w) (refreshRequest client rt))), w).
Proof.
  unfold refreshToken, try_catch, refreshed_of. rewrite run_bind. unfold fetch.
  destruct (fetch_result (env w) (refreshRequest client rt)) as [|response];
    [reflexivity|].
  destruct (resp_ok response); [|reflexivity]. cbn [negb].
  rewrite run_bind. destruct (resp_body response); reflexivity.
Qed.

Lemma refresh_fails_none r : refresh_fails r -> refreshed_of r = None.
Proof.
  intros [-> | (response & -> & Hok)]; [reflexivity|].
  simpl. rewrite Hok. reflexivity.
Qed.

Lemma truthy_str_some rt : rt <> EmptyString -> JS.truthy_str (Some rt) = true.
Proof.
  intros Hrt. simpl.
  destruct (String.eqb_spec rt EmptyString); [contradiction | reflexivity].
Qed.

(** C4. When a token that is not expired is stored, [getValidToken] returns
    that token as it is stored, whatever the client and the callback, and
    the only thing it does to the world is read the clock: no file or
    directory is written or deleted, no interactive flow is started. *)
Theorem getValidToken_valid_is_noop (this : OAuthTokenManager) (client : OAuthClient)
    (onAuthenticationNeeded : option (M (option OAuthToken)))
    (w : World) (token : StoredOAuthToken) :
  getStoredToken this w = (Return (Some token), w) ->
  fst (isTokenExpired this token w) = Return false ->
  exists w',
    getValidToken this client onAuthenticationNeeded w = (Return (Some token), w')
    /\ w' = set_tick S w
    /\ files w' = files w /\ dirs w' = dirs w
    /\ flows w' = flows w /\ listening w' = listening w.
Proof.
  intros Hst Hexp. apply isTokenExpired_false in Hexp.
  exists (set_tick S w). split; [|repeat split].
  unfold getValidToken, useExisting.
  rewrite run_bind, run_bind, Hst. cbv beta iota.
  rewrite run_bind, Hexp. reflexivity.
Qed.

Lemma getValidToken_valid_is_noop_witness :
  exists w',
    getValidToken Scenario.manager1 Scenario.client1 None Scenario.good
    = (Return (Some Scenario.kept), w')
    /\ files w' = files Scenario.good.
Proof.
  destruct (getValidToken_valid_is_noop Scenario.manager1 Scenario.client1 None
              Scenario.good Scenario.kept eq_refl eq_refl)
    as (w' & Hrun & _ & Hfiles & _).
  exists w'. split; assumption.
Defined.

(** C5. When the stored token is expired, the refresh exchange fails (a
    transport error or a non-success status) and no authentication callback
    is supplied, [getValidToken] returns the absent value: it does not
    throw, and it leaves the files as they were. The same holds when the
    expired token has no refresh token to try. *)
Theorem getValidToken_refresh_fails_absent (this : OAuthTokenManager)
    (client : OAuthClient) (w : World) (token : StoredOAuthToken) :
  getStoredToken this w = (Return (Some token), w) ->
  fst (isTokenExpired this token w) = Return true ->
  (forall rt, refresh_token token = Some rt ->
     refresh_fails (fetch_result (env w) (refreshRequest client rt))) ->
  exists w',
    getValidToken this client None w = (Return None, w')
    /\ files w' = files w /\ dirs w' = dirs w /\ flows w' = flows w.
Proof.
  intros Hst Hexp Hfail.
  rewrite isTokenExpired_run in Hexp. cbn [fst] in Hexp. injection Hexp as Hexp.
  unfold getValidToken, useExisting.
  rewrite run_bind, run_bind, Hst. cbv beta iota.
  rewrite run_bind, isTokenExpired_run, Hexp. cbv beta iota. cbn [negb].
  destruct (refresh_token token) as [rt|] eqn:Hrt; cbn [JS.truthy_str].
  - destruct (negb (String.eqb rt EmptyString)).
    + rewrite run_bind, refreshToken_run.
      replace (env (if JS.truthy_num (expires_at token) then set_tick S w else w))
        with (env w) by (destruct (JS.truthy_num (expires_at token)); reflexivity).
      change (default EmptyString (Some rt)) with rt.
      rewrite (refresh_fails_none _ (Hfail rt eq_refl)).
      eexists. split; [reflexivity|].
      destruct (JS.truthy_num (expires_at token)); repeat split.
    + eexists. split; [reflexivity|].
      destruct (JS.truthy_num (expires_at token)); repeat split.
  - eexists. split; [reflexivity|].
    destruct (JS.truthy_num (expires_at token)); repeat split.
Qed.

Lemma getValidToken_refresh_fails_absent_witness :
  exists w',
    getValidToken Scenario.manager1 Scenario.client1 None Scenario.stale_offline
    = (Return None, w')
    /\ files w' = files Scenario.stale_offline.
Proof.
  destruct (getValidToken_refresh_fails_absent Scenario.manager1 Scenario.client1
              Scenario.stale_offline Scenario.kept eq_refl eq_refl)
    as (w' & Hrun & Hfiles & _).
  - intros rt _. left. reflexivity.
  - exists w'. split; assumption.
Defined.

(** C3. When the stored token is expired and carries a refresh token, the
    refresh exchange succeeds, and the response has no refresh token (the
    field is absent, or empty), the token [getValidToken] returns and the
    token it persists both carry the refresh token that was stored; they are
    the response otherwise. The authentication callback is not called. *)
Theorem getValidToken_refresh_carries_forward (this : OAuthTokenManager)
    (client : OAuthClient) (onAuthenticationNeeded : option (M (option OAuthToken)))
    (w : World) (existing : StoredOAuthToken) (rt : string)
    (response : Response) (body : JSValue) (refreshed : OAuthToken) :
  getStoredToken this w = (Return (Some existing), w) ->
  fst (isTokenExpired this existing w) = Return true ->
  refresh_token existing = Some rt -> rt <> EmptyString ->
  fetch_result (env w) (refreshRequest client rt) = Responded response ->
  resp_ok response = true ->
  resp_body response = JsonText body ->
  Token.ofJSON body = Some refreshed ->
  JS.truthy_str (refresh_token refreshed) = false ->
  readonly w = false ->
  exists w' saved,
    getValidToken this client onAuthenticationNeeded w
    = (Return (Some (with_refresh_token (Some rt) refreshed)), w')
    /\ getStoredToken this w' = (Return (Some saved), w')
    /\ refresh_token saved = Some rt
    /\ access_token saved = access_token refreshed
    /\ expires_in saved = expires_in refreshed
    /\ token_type saved = token_type refreshed
    /\ scope saved = scope refreshed
    /\ flows w' = flows w.
Proof.
  intros Hst Hexp Hrt Hne Hfetch Hok Hbody Hjson Hnone Hro.
  rewrite isTokenExpired_run in Hexp. cbn [fst] in Hexp. injection Hexp as Hexp.
  set (w1 := if JS.truthy_num (expires_at existing) then set_tick S w else w).
  assert (Henv : env w1 = env w)
    by (unfold w1; destruct (JS.truthy_num (expires_at existing)); reflexivity).
  assert (Hro1 : readonly w1 = false)
    by (unfold w1; destruct (JS.truthy_num (expires_at existing)); exact Hro).
  assert (Hfl1 : flows w1 = flows w)
    by (unfold w1; destruct (JS.truthy_num (expires_at existing)); reflexivity).
  destruct (saveToken_run this (with_refresh_token (Some rt) refreshed) w1 Hro1)
    as (w' & Hsave & Hfiles & _ & _ & _ & _ & Hflows).
  eexists w', _.
  split.
  { unfold getValidToken, useExisting.
    rewrite run_bind, run_bind, Hst. cbv beta iota.
    rewrite run_bind, isTokenExpired_run, Hexp. fold w1. cbv beta iota. cbn [negb].
    rewrite Hrt, (truthy_str_some _ Hne).
    change (default EmptyString (Some rt)) with rt.
    rewrite run_bind, refreshToken_run, Henv, Hfetch.
    unfold refreshed_of. rewrite Hok, Hbody, Hjson, Hnone.
    cbn [negb andb]. cbv beta iota.
    rewrite run_bind, Hsave. reflexivity. }
  split.
  { rewrite getStoredToken_run. unfold stored.
    rewrite Hfiles, lookup_insert_eq, ofJSON_toJSON. reflexivity. }
  repeat split. congruence.
Qed.

Lemma getValidToken_refresh_carries_forward_witness :
  exists w' saved,
    getValidToken Scenario.manager1 Scenario.client1 None Scenario.stale_online
    = (Return (Some (with_refresh_token (Some "R") Scenario.renewed)), w')
    /\ getStoredToken Scenario.manager1 w' = (Return (Some saved), w')
    /\ refresh_token saved = Some "R"
    /\ access_token saved = "B".
Proof.
  destruct (getValidToken_refresh_carries_forward Scenario.manager1 Scenario.client1
              None Scenario.stale_online Scenario.kept "R"
              (mkResponse true 200 (JsonText (Token.toJSON Scenario.renewed)))
              (Token.toJSON Scenario.renewed) Scenario.renewed
              eq_refl eq_refl eq_refl ltac:(discriminate) eq_refl eq_refl eq_refl
              eq_refl eq_refl eq_refl)
    as (w' & saved & Hrun & Hget & Hrt & Hat & _).
  exists w', saved. repeat split; assumption.
Defined.

(** The scenario of a first authorization: nothing is stored, no maximum
    lifetime is set, and the callback yields a token good for an hour. The
    token is returned, and stored with [expires_at = created_at + 3600000]. *)
Example fresh_authorization :
  let this := mkManager Scenario.tokenFile 300000 None in
  let granted := mkToken "A" None 3600 "Bearer" None None None in
  let run := getValidToken this Scenario.client1 (Some (mret (Some granted)))
               Scenario.fresh in
  fst run = Return (Some granted)
  /\ stored this (snd run) = Some (with_times 1000000 4600000 granted).
Proof. split; vm_compute; reflexivity. Qed.

(** How [getValidToken] comes to its callback: [useExisting] returns no
    token, and then nothing has been written. *)
Lemma useExisting_cases this client w :
  exists r w1,
    useExisting this client w = (r, w1)
    /\ env w1 = env w /\ flows w1 = flows w /\ listening w1 = listening w
    /\ (r = Return None -> frame w w1)
    /\ (stored this w = None -> r = Return None)
    /\ (forall t, stored this w = Some t ->
          JS.truthy_str (refresh_token t) = false ->
          expired_at this (clock (env w) (tick w)) t = true ->
          r = Return None).
Proof.
  unfold useExisting. rewrite run_bind, getStoredToken_run.
  destruct (stored this w) as [existing|] eqn:Hst;
    [|eexists _, _; split; [reflexivity|]; repeat split; intros; discriminate].
  rewrite run_bind, isTokenExpired_run.
  set (w1 := if JS.truthy_num (expires_at existing) then set_tick S w else w).
  assert (Hw1 : frame w w1)
    by (unfold w1; destruct (JS.truthy_num (expires_at existing)); repeat split).
  pose proof Hw1 as (He & _ & _ & _ & Hl & Hfl).
  destruct (expired_at this (clock (env w) (tick w)) existing) eqn:Hexp; cbn [negb];
    [|eexists _, _; split; [reflexivity|];
      split; [|split; [|split; [|split; [|split]]]]; auto; intros;
      simplify_eq; congruence].
  destruct (JS.truthy_str (refresh_token existing)) eqn:Hrt;
    [|eexists _, _; split; [reflexivity|];
      split; [|split; [|split; [|split; [|split]]]]; auto; intros; discriminate].
  rewrite run_bind, refreshToken_run.
  destruct (refreshed_of _) as [refreshed|];
    [|eexists _, _; split; [reflexivity|];
      split; [|split; [|split; [|split; [|split]]]]; auto; intros; discriminate].
  rewrite run_bind.
  match goal with
  | |- context [saveToken this ?t w1] =>
      pose proof (saveToken_calm this t w1) as (Hse & Hsf & Hsl);
      destruct (saveToken this t w1) as [[u|e] w2]
  end; cbn [snd] in Hse, Hsf, Hsl;
    eexists _, _; (split; [reflexivity|]);
    (split; [|split; [|split; [|split; [|split]]]]); try congruence;
    intros; simplify_eq; congruence.
Qed.

(** ** getToken: the listener does not outlive the call *)

Lemma quiet_waitLoop deadline signal events : quiet (waitLoop deadline signal events).
Proof.
  induction events as [|[t ev] events IH]; cbn [waitLoop]; [quiet|].
  destruct (deadline <=? t); [quiet|].
  destruct ev as [[query|]|]; [|exact IH|destruct signal; [quiet|exact IH]].
  destruct (JS.truthy_str (Params.last "code" query)).
  - change (quiet (modify (set_replies (cons 200)) ≫=
                   (fun _ => mret (Params.last "code" query)))). quiet.
  - destruct (JS.truthy_str (Params.last "error" query)); [|exact IH].
    change (quiet (modify (set_replies (cons 400)) ≫=
                   (fun _ => mret (@None string)))). quiet.
Qed.

Lemma quiet_waitForOAuthCallback server timeout signal :
  quiet (waitForOAuthCallback server timeout signal).
Proof. unfold waitForOAuthCallback. pose proof quiet_waitLoop. quiet. Qed.

Lemma quiet_openBrowser url : quiet (openBrowser url).
Proof. unfold openBrowser. quiet. Qed.

Lemma quiet_authorizationUrl credentials options redirectUri :
  quiet (authorizationUrl credentials options redirectUri).
Proof. unfold authorizationUrl. quiet. Qed.

Lemma quiet_codeRequest credentials authCode redirectUri :
  quiet (codeRequest credentials authCode redirectUri).
Proof. unfold codeRequest. quiet. Qed.

Lemma filter_other_port (l : list Z) (port : Z) :
  port ∉ l -> filter (fun p => p ≠ port) l = l.
Proof.
  induction l as [|a l IH]; [reflexivity|].
  intros Hn. rewrite filter_cons.
  destruct (decide (a ≠ port)) as [Hne|Heq].
  - f_equal. apply IH. set_solver.
  - exfalso. apply Hn. destruct (decide (a = port)) as [->|]; [set_solver | contradiction].
Qed.

Lemma close_after_listen (l : list Z) (port : Z) :
  port ∉ l -> filter (fun p => p ≠ port) (port :: l) = l.
Proof.
  intros Hn. rewrite filter_cons.
  destruct (decide (port ≠ port)); [contradiction|]. apply filter_other_port, Hn.
Qed.

(** [startLocalOAuthServer] resolves with a listener on a port that was
    free, or rejects and opens nothing. *)
Lemma startLocalOAuthServer_run redirectUri w :
  (exists server,
     startLocalOAuthServer redirectUri w = (Return server, set_listening (cons server) w)
     /\ server ∉ listening w)
  \/ (exists e, startLocalOAuthServer redirectUri w = (Throw e, w)).
Proof.
  unfold startLocalOAuthServer.
  destruct redirectUri; try (right; eexists; reflexivity).
  destruct (url_port (env w) s) as [urlPort|]; [|right; eexists; reflexivity].
  destruct (port_busy (env w) (JS.or_num urlPort 8080));
    [right; eexists; reflexivity|].
  cbn [orb].
  destruct (bool_decide (JS.or_num urlPort 8080 ∈ listening w)) eqn:Hin;
    [right; eexists; reflexivity|].
  left. eexists. split; [reflexivity|].
  apply bool_decide_eq_false in Hin. exact Hin.
Qed.

(** A listener opened by [startLocalOAuthServer] and closed by the [finally]
    clause around a quiet body leaves the world framed, whether the body
    returns or throws. *)
Lemma quiet_with_listener {A B} (redirectUri : JSValue) (failed : M B)
    (body : Z -> M A) (rest : A -> M B) :
  quiet failed -> (forall server, quiet (body server)) -> (forall c, quiet (rest c)) ->
  quiet (started ← settle (startLocalOAuthServer redirectUri);
         match started with
         | Throw error => failed
         | Return server =>
             completed ← try_finally (body server) (server_close server);
             rest completed
         end).
Proof.
  intros Hfailed Hbody Hrest w. rewrite run_bind. unfold settle.
  destruct (startLocalOAuthServer_run redirectUri w)
    as [(server & -> & Hfree) | (e & ->)]; [|apply Hfailed].
  rewrite run_bind. unfold try_finally.
  pose proof (Hbody server (set_listening (cons server) w)) as Hb.
  destruct (body server (set_listening (cons server) w)) as [o w2].
  unfold server_close, modify. cbn [snd] in Hb.
  destruct Hb as (He & Hf & Hd & Hr & Hl & Hfl). cbn in He, Hf, Hd, Hr, Hl, Hfl.
  assert (Hclosed : frame w (set_listening (filter (fun p => p ≠ server)) w2)).
  { repeat split; cbn; try assumption.
    rewrite Hl. apply close_after_listen, Hfree. }
  destruct o as [c|e]; cbn [snd]; [|exact Hclosed].
  eapply frame_trans; [exact Hclosed | apply Hrest].
Qed.

(** [getToken] records the call, and frames the world otherwise. *)
Lemma getToken_frame credentials options w :
  frame (set_flows (cons options) w) (snd (getToken credentials options w)).
Proof.
  unfold getToken. rewrite run_bind. unfold modify at 1. cbv beta iota.
  generalize (set_flows (cons options) w). clear w.
  change (quiet
    (redirect_uris ← lift (JS.get credentials "redirect_uris");
     redirectUri ← lift (JS.first redirect_uris);
     started ← settle (startLocalOAuthServer redirectUri);
     match started with
     | Throw error => mret None
     | Return server =>
         completed ←
           try_finally
             (try_catch
                (authUrl ← authorizationUrl credentials options redirectUri;
                 openBrowser authUrl;;
                 authCode ← waitForOAuthCallback server
                              (JS.or_num (timeoutSeconds options) 300) (signal options);
                 mret (Some authCode))
                (fun error => mret None))
             (server_close server);
         match completed with
         | None => mret None
         | Some authCode =>
             if negb (JS.truthy_str authCode) then mret None
             else
               tokenRequest ←
                 codeRequest credentials (default EmptyString authCode) redirectUri;
               try_catch
                 (response ← fetch tokenRequest;
                  if negb (resp_ok response)
                  then throw (Error "HTTP error!")
                  else
                    tokenResponse ← JSON.parse (resp_body response);
                    mret (Token.ofJSON tokenResponse))
                 (fun error => mret None)
         end
     end)).
  apply quiet_bind; [quiet|]. intros redirect_uris.
  apply quiet_bind; [quiet|]. intros redirectUri.
  apply (quiet_with_listener redirectUri (mret None)
           (fun server =>
              try_catch
                (authUrl ← authorizationUrl credentials options redirectUri;
                 openBrowser authUrl;;
                 authCode ← waitForOAuthCallback server
                              (JS.or_num (timeoutSeconds options) 300) (signal options);
                 mret (Some authCode))
                (fun error => mret None))).
  - quiet.
  - intros server.
    pose proof quiet_authorizationUrl. pose proof quiet_openBrowser.
    pose proof quiet_waitForOAuthCallback. quiet.
  - intros [authCode|]; [|quiet].
    pose proof quiet_codeRequest. quiet.
Qed.

Lemma waitLoop_no_code deadline signal events w :
  (forall t ev, (t, ev) ∈ events -> t < deadline -> carries_code ev = false) ->
  fst (waitLoop deadline signal events w) = Return None.
Proof.
  revert w. induction events as [|[t ev] events IH]; intros w Hev; [reflexivity|].
  cbn [waitLoop]. destruct (Z.leb_spec deadline t) as [Hle|Hlt]; [reflexivity|].
  assert (IH' : forall w, fst (waitLoop deadline signal events w) = Return None).
  { intros w0. apply IH. intros t' ev' Hin. apply Hev. set_solver. }
  pose proof (Hev t ev ltac:(set_solver) Hlt) as Hcode.
  destruct ev as [[query|]|]; [|apply IH'|destruct signal; [reflexivity|apply IH']].
  cbn [carries_code] in Hcode. rewrite Hcode.
  destruct (JS.truthy_str (Params.last "error" query)); [reflexivity|apply IH'].
Qed.

Lemma waitLoop_abort deadline pre t post w :
  (forall t' ev, (t', ev) ∈ pre -> carries_code ev = false) ->
  fst (waitLoop deadline true (pre ++ (t, Abort) :: post) w) = Return None.
Proof.
  revert w. induction pre as [|[t' ev] pre IH]; intros w Hpre.
  - cbn [app waitLoop]. destruct (deadline <=? t); reflexivity.
  - cbn [app waitLoop]. destruct (deadline <=? t'); [reflexivity|].
    assert (IH' : forall w, fst (waitLoop deadline true (pre ++ (t, Abort) :: post) w)
                            = Return None).
    { intros w0. apply IH. intros t0 ev0 Hin. apply (Hpre t0). set_solver. }
    pose proof (Hpre t' ev ltac:(set_solver)) as Hcode.
    destruct ev as [[query|]|]; [|apply IH'|reflexivity].
    cbn [carries_code] in Hcode. rewrite Hcode.
    destruct (JS.truthy_str (Params.last "error" query)); [reflexivity|apply IH'].
Qed.

Lemma waitForOAuthCallback_no_code server timeout signal w :
  no_request_within (timeout * 1000) (arrivals (env w))
  \/ (signal = true /\ cancelled_first (arrivals (env w))) ->
  fst (waitForOAuthCallback server timeout signal w) = Return None.
Proof.
  unfold waitForOAuthCallback. rewrite run_gets.
  intros [Hquiet | [-> (pre & t & post & -> & Hpre)]].
  - apply waitLoop_no_code. intros t ev Hin Hlt.
    destruct ev as [query|]; [|reflexivity].
    specialize (Hquiet t query Hin). lia.
  - apply waitLoop_abort. intros t' ev Hin.
    destruct ev as [query|]; [|reflexivity].
    exfalso. exact (Hpre t' query Hin).
Qed.

(** The body of the [try] in [getToken], when no code arrives: it ends in
    the [catch] clause or leaves [authCode] null. *)
Lemma flow_body_no_code credentials options redirectUri server w :
  no_request_within (JS.or_num (timeoutSeconds options) 300 * 1000) (arrivals (env w))
  \/ (signal options = true /\ cancelled_first (arrivals (env w))) ->
  exists completed w',
    try_catch
      (authUrl ← authorizationUrl credentials options redirectUri;
       openBrowser authUrl;;
       authCode ← waitForOAuthCallback server
                    (JS.or_num (timeoutSeconds options) 300) (signal options);
       mret (Some authCode))
      (fun error => mret None) w = (Return completed, w')
    /\ (completed = None \/ completed = Some None).
Proof.
  intros Hquiet. unfold try_catch. rewrite run_bind.
  pose proof (quiet_authorizationUrl credentials options redirectUri w) as Ha.
  destruct (authorizationUrl credentials options redirectUri w) as [[authUrl|e] wa];
    [|eexists _, _; split; [reflexivity | left; reflexivity]].
  destruct Ha as [Hea _]. cbn [snd] in Hea.
  rewrite run_bind.
  pose proof (quiet_openBrowser authUrl wa) as Hb.
  destruct (openBrowser authUrl wa) as [[u|e] wb];
    [|eexists _, _; split; [reflexivity | left; reflexivity]].
  destruct Hb as [Heb _]. cbn [snd] in Heb.
  rewrite run_bind.
  pose proof (waitForOAuthCallback_no_code server
                (JS.or_num (timeoutSeconds options) 300) (signal options) wb) as Hw.
  rewrite Heb, Hea in Hw. specialize (Hw Hquiet).
  destruct (waitForOAuthCallback _ _ _ wb) as [o wc]. cbn [fst] in Hw. subst o.
  eexists _, _. split; [reflexivity | right; reflexivity].
Qed.

(** C8. On every way out of [getToken], returning or throwing, the ports
    with an open listener are those that were open before the call: the
    listener the call opened is closed. And when no callback request
    arrives within the timeout in effect ([timeoutSeconds], 300 s when it is
    unset or 0), or the signal fires before any request has arrived, the
    call returns the absent value. The credentials are of the declared
    type, with an array of redirect URIs. *)
Theorem getToken_tears_down (credentials : JSValue) (options : OAuthGetTokenOptions)
    (w : World) :
  (forall r w', getToken credentials options w = (r, w') -> listening w' = listening w)
  /\ (forall uris,
        JS.get credentials "redirect_uris" = Return (JArr uris) ->
        no_request_within (JS.or_num (timeoutSeconds options) 300 * 1000)
                          (arrivals (env w))
        \/ (signal options = true /\ cancelled_first (arrivals (env w))) ->
        fst (getToken credentials options w) = Return None).
Proof.
  split.
  - intros r w' Hrun. pose proof (getToken_frame credentials options w) as Hf.
    rewrite Hrun in Hf. destruct Hf as (_ & _ & _ & _ & Hl & _). exact Hl.
  - intros uris Huris Hquiet.
    unfold getToken. rewrite run_bind. unfold modify at 1. cbv beta iota.
    rewrite Huris, run_lift_return. cbn [JS.first]. rewrite run_lift_return.
    rewrite run_bind. unfold settle.
    destruct (startLocalOAuthServer_run (default JUndefined (head uris))
                (set_flows (cons options) w))
      as [(server & -> & _) | (e & ->)]; [|reflexivity].
    rewrite run_bind. unfold try_finally.
    destruct (flow_body_no_code credentials options
                (default JUndefined (head uris)) server
                (set_listening (cons server) (set_flows (cons options) w)) Hquiet)
      as (completed & w2 & -> & Hcompleted).
    unfold server_close, modify. cbv beta iota.
    destruct Hcompleted as [-> | ->]; reflexivity.
Qed.

Lemma getToken_tears_down_witness :
  fst (getToken Scenario.credentials1 Scenario.flowOptions1 Scenario.late_callback)
  = Return None
  /\ listening
       (snd (getToken Scenario.credentials1 Scenario.flowOptions1 Scenario.late_callback))
     = [].
Proof.
  destruct (getToken_tears_down Scenario.credentials1 Scenario.flowOptions1
              Scenario.late_callback) as [Hclosed Hnone].
  split.
  - apply (Hnone [JStr "http://localhost:9326/oauth2callback"]); [reflexivity|].
    left. intros t query Hin.
    apply list_elem_of_singleton in Hin. injection Hin as -> _.
    vm_compute. discriminate.
  - apply (Hclosed _ _ (surjective_pairing _)).
Defined.

(** ** The orchestrator's prompt *)

Lemma inert_lacks credentials k : inert (lacks credentials k).
Proof. unfold lacks. inert. Qed.

Lemma inert_missingRequiredFields credentials : inert (missingRequiredFields credentials).
Proof. unfold missingRequiredFields. pose proof inert_lacks. inert. Qed.

Lemma inert_loadCredentialsFromFile filePath credentialsKey :
  inert (loadCredentialsFromFile filePath credentialsKey).
Proof.
  unfold loadCredentialsFromFile. pose proof inert_missingRequiredFields. inert.
Qed.

Lemma inert_resolveCredentials input credentialsKey :
  inert (resolveCredentials input credentialsKey).
Proof.
  unfold resolveCredentials. destruct input as [filePath|data].
  - apply inert_loadCredentialsFromFile.
  - inert.
Qed.

(** Credentials that pass the validation are an object. *)
Lemma missingRequiredFields_object credentials w :
  fst (missingRequiredFields credentials w) = Return false ->
  exists props, credentials = JObj props.
Proof.
  unfold missingRequiredFields, lacks. rewrite !run_bind. unfold lift at 1.
  destruct credentials; cbn; try discriminate. eauto.
Qed.

Lemma onAuthenticationNeeded_run options this credentials w :
  onAuthenticationNeeded options this credentials w
  = getToken credentials (authOptions_of options (stored this w)) w.
Proof.
  unfold onAuthenticationNeeded, authOptions_of, effectivePrompt_of.
  rewrite run_bind.
  destruct (Auth.prompt options) as [p|]; cbn [is_Some negb andb]; [reflexivity|].
  destruct (wantOfflineAccess options); cbn [negb andb]; [|reflexivity].
  rewrite bool_decide_eq_false_2 by (intros [? ?]; discriminate). cbn [negb andb].
  rewrite run_bind, getStoredToken_run.
  destruct (stored this w) as [storedToken|]; [|reflexivity].
  destruct (negb (JS.truthy_str (refresh_token storedToken))); reflexivity.
Qed.

Lemma onAuthenticationNeeded_flows options this credentials w :
  frame (set_flows (cons (authOptions_of options (stored this w))) w)
        (snd (onAuthenticationNeeded options this credentials w)).
Proof. rewrite onAuthenticationNeeded_run. apply getToken_frame. Qed.

(** [getValidToken] under the orchestrator's callback starts at most one
    flow, with the options the callback computes from what is stored; and
    it starts one when nothing is stored, or what is stored is expired and
    has no refresh token. *)
Lemma getValidToken_flows options this client credentials w :
  let w' := snd (getValidToken this client
                   (Some (onAuthenticationNeeded options this credentials)) w) in
  (flows w' = flows w \/ flows w' = authOptions_of options (stored this w) :: flows w)
  /\ (stored this w = None
      \/ (exists t, stored this w = Some t
                    /\ JS.truthy_str (refresh_token t) = false
                    /\ expired_at this (clock (env w) (tick w)) t = true) ->
      flows w' = authOptions_of options (stored this w) :: flows w).
Proof.
  unfold getValidToken. rewrite run_bind.
  destruct (useExisting_cases this client w)
    as (r & w1 & -> & He & Hfl & Hl & Hnone & Habsent & Hstale).
  assert (Hcallback :
    r = Return None ->
    flows (snd ((newToken ← onAuthenticationNeeded options this credentials;
                 match newToken with
                 | Some newToken => saveToken this newToken;; mret (Some newToken)
                 | None => mret None
                 end) w1))
    = authOptions_of options (stored this w) :: flows w).
  { intros Hr. specialize (Hnone Hr).
    rewrite run_bind.
    pose proof (onAuthenticationNeeded_flows options this credentials w1) as Hcb.
    rewrite (stored_frame this w w1 Hnone) in Hcb.
    destruct Hcb as (_ & _ & _ & _ & _ & Hcf). cbn [flows set_flows] in Hcf.
    rewrite Hfl in Hcf.
    destruct (onAuthenticationNeeded options this credentials w1) as [[[t|]|e] w2];
      cbn [snd] in Hcf |- *; try exact Hcf.
    rewrite run_bind.
    pose proof (saveToken_calm this t w2) as (_ & Hsf & _).
    destruct (saveToken this t w2) as [[u|e] w3]; cbn [snd] in Hsf; simpl; congruence. }
  split.
  - destruct r as [[t|]|e]; cbn [snd]; [left; exact Hfl | | left; exact Hfl].
    right. apply Hcallback. reflexivity.
  - intros Hst.
    assert (Hr : r = Return None).
    { destruct Hst as [Hst | (t & Hst & Hrt & Hexp)];
        [apply Habsent, Hst | apply (Hstale t Hst Hrt Hexp)]. }
    subst r. apply Hcallback. reflexivity.
Qed.

(** Up to the call of [getValidToken], [authenticateOAuth] only reads: it
    stops there, or goes on with a manager built from its options. *)
Lemma authenticateOAuth_run input options w :
  (exists r, authenticateOAuth input options w = (r, w))
  \/ (exists credentials this client,
        constructor (tokenManagerOptions options (cwd (env w))) = Return this
        /\ authenticateOAuth input options w
           = getValidToken this client
               (Some (onAuthenticationNeeded options this credentials)) w).
Proof.
  unfold authenticateOAuth.
  match goal with
  | |- context [(resolveCredentials ?i ?key ≫= ?k) w] =>
      destruct (inert_step (resolveCredentials i key) k w
                  (inert_resolveCredentials _ _))
        as [(e & ->) | (resolved & _ & ->)]; [left; eauto|]
  end.
  destruct resolved as [credentials|]; [|left; exists (Return None); reflexivity].
  match goal with
  | |- context [(missingRequiredFields ?c ≫= ?k) w] =>
      destruct (inert_step (missingRequiredFields c) k w
                  (inert_missingRequiredFields _))
        as [(e & ->) | (missing & _ & ->)]; [left; eauto|]
  end.
  destruct missing; [left; exists (Return None); reflexivity|].
  rewrite run_gets.
  destruct (constructor (tokenManagerOptions options (cwd (env w)))) as [this|e] eqn:Hc;
    [rewrite run_lift_return | left; rewrite run_lift_throw; eauto].
  destruct (JS.get credentials "client_id") as [client_id|e];
    [rewrite run_lift_return | left; rewrite run_lift_throw; eauto].
  destruct (JS.get credentials "client_secret") as [client_secret|e];
    [rewrite run_lift_return | left; rewrite run_lift_throw; eauto].
  destruct (JS.get credentials "token_uri") as [token_uri|e];
    [rewrite run_lift_return | left; rewrite run_lift_throw; eauto].
  rewrite run_bind, getStoredToken_run.
  right. eexists credentials, this, _. split; reflexivity.
Qed.

(** With credentials that resolve and are complete, and a manager that can
    be built, [authenticateOAuth] is [getValidToken] under its callback. *)
Lemma authenticateOAuth_continue input options w credentials this :
  fst (resolveCredentials input (Auth.credentialsKey options) w)
  = Return (Some credentials) ->
  fst (missingRequiredFields credentials w) = Return false ->
  constructor (tokenManagerOptions options (cwd (env w))) = Return this ->
  exists client,
    authenticateOAuth input options w
    = getValidToken this client
        (Some (onAuthenticationNeeded options this credentials)) w.
Proof.
  intros Hres Hmiss Hc.
  destruct (missingRequiredFields_object _ _ Hmiss) as [props ->].
  unfold authenticateOAuth.
  rewrite (run_bind_return _ _ w (Some (JObj props)) w)
    by (rewrite (inert_run _ w (inert_resolveCredentials _ _)), Hres; reflexivity).
  cbv beta iota.
  rewrite (run_bind_return _ _ w false w)
    by (rewrite (inert_run _ w (inert_missingRequiredFields _)), Hmiss; reflexivity).
  cbv beta iota.
  rewrite run_gets, Hc, run_lift_return.
  cbn [JS.get]. rewrite !run_lift_return.
  rewrite run_bind, getStoredToken_run.
  eexists. reflexivity.
Qed.

(** C6. Every interactive flow that [authenticateOAuth] starts requests
    offline access exactly when it is wanted, that is unless
    [includeOfflineAccess] is explicitly false, and carries this prompt: the
    caller's, when the caller gave one; ['consent'], when the caller gave
    none, offline access is wanted, and no token is stored (the token file
    is missing, unreadable or not JSON) or the stored token has no refresh
    token. The call starts at most one flow. It does start one when its
    credentials are complete and no token is stored, or the stored token is
    expired and has no refresh token. A stored token is one of the declared
    type, and a [credentialsKey] is not a name that every object has from
    [Object.prototype]. *)
Theorem authenticateOAuth_forces_consent (input : CredentialsInput)
    (options : Auth.Options) (w : World) :
  let w' := snd (authenticateOAuth input options w) in
  (flows w' = flows w
   \/ exists o this,
        flows w' = o :: flows w
        /\ constructor (tokenManagerOptions options (cwd (env w))) = Return this
        /\ includeOfflineAccess o
           = Some (negb (bool_decide (Auth.includeOfflineAccess options = Some false)))
        /\ (forall p, Auth.prompt options = Some p -> prompt o = Some p)
        /\ (Auth.prompt options = None ->
            Auth.includeOfflineAccess options <> Some false ->
            nothing_stored this w
            \/ (exists t, stored this w = Some t
                          /\ JS.truthy_str (refresh_token t) = false) ->
            prompt o = Some PromptConsent))
  /\ (forall credentials this,
        (forall key, Auth.credentialsKey options = Some key ->
                     key ∉ Object_prototype) ->
        fst (resolveCredentials input (Auth.credentialsKey options) w)
        = Return (Some credentials) ->
        fst (missingRequiredFields credentials w) = Return false ->
        constructor (tokenManagerOptions options (cwd (env w))) = Return this ->
        nothing_stored this w
        \/ (exists t, stored this w = Some t
                      /\ JS.truthy_str (refresh_token t) = false
                      /\ fst (isTokenExpired this t w) = Return true) ->
        exists o, flows w' = o :: flows w).
Proof.
  intros w'. subst w'. split.
  - destruct (authenticateOAuth_run input options w)
      as [(r & ->) | (credentials & this & client & Hc & ->)]; [left; reflexivity|].
    destruct (getValidToken_flows options this client credentials w) as [[Hfl|Hfl] _];
      [left; exact Hfl|].
    right. exists (authOptions_of options (stored this w)), this.
    split; [exact Hfl|]. split; [exact Hc|]. split; [reflexivity|].
    cbn [prompt authOptions_of]. unfold effectivePrompt_of. split.
    + intros p ->. reflexivity.
    + intros -> Hwant Hst.
      unfold wantOfflineAccess.
      rewrite bool_decide_eq_false_2 by exact Hwant. cbn [negb].
      destruct Hst as [Hst | (t & -> & ->)]; [|reflexivity].
      rewrite (nothing_stored_none this w Hst). reflexivity.
  - intros credentials this _ Hres Hmiss Hc Hst.
    destruct (authenticateOAuth_continue input options w credentials this
                Hres Hmiss Hc) as [client ->].
    destruct (getValidToken_flows options this client credentials w) as [_ Hstart].
    eexists. apply Hstart.
    destruct Hst as [Hst | (t & Hst & Hrt & Hexp)];
      [left; exact (nothing_stored_none this w Hst) | right].
    exists t. split; [exact Hst|]. split; [exact Hrt|].
    rewrite isTokenExpired_run in Hexp. cbn [fst] in Hexp. congruence.
Qed.

Lemma authenticateOAuth_forces_consent_witness :
  exists o,
    flows (snd (authenticateOAuth (CredentialsData Scenario.credentials1)
                  Scenario.authOptions1 Scenario.late_callback))
    = [o]
    /\ prompt o = Some PromptConsent
    /\ includeOfflineAccess o = Some true.
Proof.
  destruct (authenticateOAuth_forces_consent (CredentialsData Scenario.credentials1)
              Scenario.authOptions1 Scenario.late_callback) as [[Hnone | Hflow] _].
  - exfalso. vm_compute in Hnone. discriminate.
  - destruct Hflow as (o & this & Hfl & Hc & Hoff & _ & Hconsent).
    exists o. split; [exact Hfl|]. split; [|exact Hoff].
    apply Hconsent; [reflexivity | discriminate |].
    left. injection Hc as <-. intros v Hv. discriminate.
Defined.

(** ** Credentials in a file are not auto-detected *)

(** C7, at a Google credentials file and no [credentialsKey]: handed the
    parsed object, [authenticateOAuth] finds the credentials under
    ["installed"] and starts the flow; handed the path of the file, it takes
    the file's top level for the credentials, finds the four fields missing,
    and returns the absent value without starting anything. *)
Theorem file_credentials_not_autodetected :
  fst (resolveCredentials (CredentialsData Scenario.googleCredentials) None
         Scenario.with_google_file)
  = Return (Some Scenario.credentials1)
  /\ length (flows (snd (authenticateOAuth (CredentialsData Scenario.googleCredentials)
                           Scenario.authOptions1 Scenario.with_google_file))) = 1%nat
  /\ fst (loadCredentialsFromFile "/home/u/credentials.json" None
            Scenario.with_google_file)
     = Return None
  /\ fst (authenticateOAuth (CredentialsPath "/home/u/credentials.json")
            Scenario.authOptions1 Scenario.with_google_file)
     = Return None
  /\ flows (snd (authenticateOAuth (CredentialsPath "/home/u/credentials.json")
                   Scenario.authOptions1 Scenario.with_google_file))
     = [].
Proof. repeat split; vm_compute; reflexivity. Qed.

(** With the key given, the same file loads. *)
Lemma file_credentials_with_key :
  fst (loadCredentialsFromFile "/home/u/credentials.json" (Some "installed")
         Scenario.with_google_file)
  = Return (Some Scenario.credentials1).
Proof. vm_compute. reflexivity. Qed.

(** An object whose nested credentials are [null] makes the validation
    throw, where the file loader would have caught the error. *)
Lemma null_credentials_throw :
  exists msg,
    fst (authenticateOAuth (CredentialsData (JObj [("installed", JNull)]))
           Scenario.authOptions1 Scenario.fresh)
    = Throw (TypeError msg).
Proof. eexists. vm_compute. reflexivity. Qed.

(** * Further properties *)

(** ** The token store *)

Lemma expired_at_monotone this token now now' :
  now <= now' -> expired_at this now token = true -> expired_at this now' token = true.
Proof.
  intros Hle. unfold expired_at.
  destruct (JS.truthy_num (expires_at token)); cbn [negb orb]; [|auto].
  rewrite !orb_true_iff, !andb_true_iff, !Z.leb_le.
  intros [[Hg Hx] | Hx]; [left; split; [exact Hg | lia] | right; lia].
Qed.

(** X1. Expiry only grows with time: a token that [isTokenExpired] declares
    expired at one clock reading is declared expired at every later one. *)
Theorem isTokenExpired_monotone (this : OAuthTokenManager) (token : StoredOAuthToken)
    (w w' : World) :
  clock (env w) (tick w) <= clock (env w') (tick w') ->
  fst (isTokenExpired this token w) = Return true ->
  fst (isTokenExpired this token w') = Return true.
Proof.
  rewrite !isTokenExpired_run. cbn [fst]. intros Hle [= Hexp].
  rewrite (expired_at_monotone _ _ _ _ Hle Hexp). reflexivity.
Qed.

Lemma isTokenExpired_monotone_witness :
  fst (isTokenExpired Scenario.manager1 Scenario.kept Case.later) = Return true.
Proof.
  apply (isTokenExpired_monotone Scenario.manager1 Scenario.kept
           Scenario.stale_offline Case.later).
  - vm_compute. discriminate.
  - reflexivity.
Defined.

Lemma isTokenValid_run this w :
  isTokenValid this w
  = match stored this w with
    | None => (Return false, w)
    | Some token =>
        (Return (negb (expired_at this (clock (env w) (tick w)) token)),
         if JS.truthy_num (expires_at token) then set_tick S w else w)
    end.
Proof.
  unfold isTokenValid. rewrite run_bind, getStoredToken_run.
  destruct (stored this w) as [token|]; [|reflexivity].
  rewrite run_bind, isTokenExpired_run. reflexivity.
Qed.

(** A record whose [expires_at] respects the maximum lifetime counted from
    its [created_at] expires by [expires_at] alone. *)
Lemma expired_at_saved this now e token now' :
  (JS.truthy_num (maxTokenLifetime this) = true ->
   e <= now + default 0 (maxTokenLifetime this)) ->
  expired_at this now' (with_times now e token)
  = (e =? 0) || (e - expirationBuffer this <=? now').
Proof.
  intros Hcap. unfold expired_at. cbn [expires_at created_at with_times].
  change (default 0 (Some e)) with e. change (default 0 (Some now)) with now.
  unfold JS.truthy_num at 1. rewrite negb_involutive.
  destruct (e =? 0); [reflexivity|]. cbn [orb].
  destruct (JS.truthy_num (maxTokenLifetime this)); [|reflexivity].
  specialize (Hcap eq_refl).
  destruct (JS.truthy_num (Some now)); [|reflexivity]. cbn [andb].
  destruct (Z.leb_spec (now + default 0 (maxTokenLifetime this)
                        - expirationBuffer this) now');
    destruct (Z.leb_spec (e - expirationBuffer this) now'); try reflexivity; lia.
Qed.

(** X2. Saving and then asking [isTokenValid]: the answer is true exactly
    when the computed [expires_at] is not 0 and the next clock reading is
    before [expires_at - buffer]. So a token whose server lifetime does not
    exceed the buffer is invalid as soon as it is saved, on a clock that does
    not run backwards. *)
Theorem saveToken_then_isTokenValid (this : OAuthTokenManager) (token : OAuthToken)
    (w : World) :
  readonly w = false ->
  let now := clock (env w) (tick w) in
  let now' := clock (env w) (S (tick w)) in
  exists w' saved e,
    saveToken this token w = (Return tt, w')
    /\ getStoredToken this w' = (Return (Some saved), w')
    /\ expires_at saved = Some e
    /\ (fst (isTokenValid this w') = Return true
        <-> e <> 0 /\ now' < e - expirationBuffer this)
    /\ (expires_in token * 1000 <= expirationBuffer this -> now <= now' ->
        fst (isTokenValid this w') = Return false).
Proof.
  intros Hro now now'.
  destruct (saveToken_run this token w Hro)
    as (w' & Hrun & Hfiles & Henv & _ & Htick & _).
  fold now in Hfiles.
  set (e := if JS.truthy_num (maxTokenLifetime this)
            then Z.min (now + expires_in token * 1000)
                       (now + default 0 (maxTokenLifetime this))
            else now + expires_in token * 1000) in *.
  assert (Hst : stored this w' = Some (with_times now e token)).
  { unfold stored. rewrite Hfiles, lookup_insert_eq, ofJSON_toJSON. reflexivity. }
  assert (Hcap : JS.truthy_num (maxTokenLifetime this) = true ->
                 e <= now + default 0 (maxTokenLifetime this)).
  { intros Ht. unfold e. rewrite Ht. lia. }
  assert (Hsrv : e <= now + expires_in token * 1000).
  { unfold e. destruct (JS.truthy_num (maxTokenLifetime this)); lia. }
  exists w', (with_times now e token), e.
  split; [exact Hrun|].
  split; [rewrite getStoredToken_run, Hst; reflexivity|].
  split; [reflexivity|].
  rewrite isTokenValid_run, Hst, Henv, Htick. fold now'. cbn [fst].
  rewrite (expired_at_saved this now e token now' Hcap).
  clearbody e.
  destruct (Z.eqb_spec e 0) as [He0|He0];
    destruct (Z.leb_spec (e - expirationBuffer this) now') as [Hx|Hx];
    cbn [orb negb]; split;
    try (split; [discriminate | intros [H1 H2]; try contradiction; lia]);
    try (split; [intros _; split; [assumption | lia] | reflexivity]);
    try reflexivity; intros; lia.
Qed.

Lemma saveToken_then_isTokenValid_witness :
  exists w',
    saveToken Scenario.manager1 Scenario.issued Scenario.fresh = (Return tt, w')
    /\ fst (isTokenValid Scenario.manager1 w') = Return true.
Proof.
  destruct (saveToken_then_isTokenValid Scenario.manager1 Scenario.issued
              Scenario.fresh eq_refl)
    as (w' & saved & e & Hrun & Hget & He & Hiff & _).
  exists w'. split; [exact Hrun|]. apply Hiff.
  assert (Hrun' := saveToken_run Scenario.manager1 Scenario.issued Scenario.fresh
                     eq_refl).
  destruct Hrun' as (w2 & Hrun2 & Hfiles & _).
  rewrite Hrun in Hrun2. injection Hrun2 as <-.
  rewrite getStoredToken_run in Hget. injection Hget as Hget.
  unfold stored in Hget. rewrite Hfiles, lookup_insert_eq, ofJSON_toJSON in Hget.
  injection Hget as <-. cbn in He. injection He as <-.
  vm_compute. split; [discriminate | reflexivity].
Defined.

(** X3. [deleteStoredToken] on a medium that takes writes, at a path that is
    not a directory: it returns, the token file is gone, [getStoredToken]
    finds nothing, and every other file and the directories are as before.
    When nothing exists at the path it does nothing at all, whatever the
    medium. *)
Theorem deleteStoredToken_removes (this : OAuthTokenManager) (w : World) :
  readonly w = false ->
  tokenPath this ∉ dirs w ->
  (exists w',
     deleteStoredToken this w = (Return tt, w')
     /\ files w' !! tokenPath this = None
     /\ getStoredToken this w' = (Return None, w')
     /\ (forall p, p <> tokenPath this -> files w' !! p = files w !! p)
     /\ dirs w' = dirs w)
  /\ (forall w0, fst (hasStoredToken this w0) = Return false ->
        deleteStoredToken this w0 = (Return tt, w0)).
Proof.
  intros Hro Hdir. split.
  - unfold deleteStoredToken, hasStoredToken, fs.existsSync. rewrite run_gets.
    rewrite (bool_decide_eq_false_2 _ Hdir), orb_false_r.
    destruct (files w !! tokenPath this) as [f|] eqn:Hf.
    + rewrite bool_decide_eq_true_2 by eauto. cbn [negb].
      unfold fs.unlinkSync. rewrite Hro, Hf.
      eexists. split; [reflexivity|]. cbn [files set_files dirs].
      split; [apply lookup_delete_eq|].
      split; [rewrite getStoredToken_run; unfold stored; cbn [files set_files];
              rewrite lookup_delete_eq; reflexivity|].
      split; [|reflexivity].
      intros p Hp. apply lookup_delete_ne. congruence.
    + rewrite bool_decide_eq_false_2 by (intros [? ?]; discriminate). cbn [negb].
      exists w. split; [reflexivity|]. split; [exact Hf|].
      split; [rewrite getStoredToken_run; unfold stored; rewrite Hf; reflexivity|].
      split; reflexivity.
  - intros w0 Hhas. unfold deleteStoredToken. rewrite run_bind.
    unfold hasStoredToken, fs.existsSync, gets in *. cbn [fst] in Hhas.
    injection Hhas as ->. reflexivity.
Qed.

Lemma deleteStoredToken_removes_witness :
  exists w',
    deleteStoredToken Scenario.manager1 Scenario.good = (Return tt, w')
    /\ getStoredToken Scenario.manager1 w' = (Return None, w').
Proof.
  destruct (deleteStoredToken_removes Scenario.manager1 Scenario.good eq_refl)
    as [(w' & Hrun & _ & Hget & _) _].
  - vm_compute. discriminate.
  - exists w'. split; assumption.
Defined.

(** X4. [getTokenInfo] always returns and writes nothing, and its [valid] is
    the answer of [isTokenValid] in the same world. When no token is stored
    (the file is missing, unreadable or not JSON) its [exists] and [valid]
    are false; so [exists] does not say whether a file is there: for a token
    file that is not JSON, [hasStoredToken] is true and [exists] is false.
    When a token of the declared type is stored, [exists] is true, [valid]
    says that it has not expired, and a refresh token is reported exactly
    when the stored one is a non-empty string. *)
Theorem getTokenInfo_agrees (this : OAuthTokenManager) (w : World) :
  exists info w',
    getTokenInfo this w = (Return info, w')
    /\ files w' = files w /\ dirs w' = dirs w
    /\ fst (isTokenValid this w) = Return (info_valid info)
    /\ (nothing_stored this w ->
        info_exists info = false /\ info_valid info = false)
    /\ (forall raw, files w !! tokenPath this = Some (Readable (Garbage raw)) ->
          fst (hasStoredToken this w) = Return true /\ info_exists info = false)
    /\ (forall t, getStoredToken this w = (Return (Some t), w) ->
          info_exists info = true
          /\ fst (isTokenExpired this t w) = Return (negb (info_valid info))
          /\ (info_hasRefreshToken info = Some true
              <-> exists rt, refresh_token t = Some rt /\ rt <> EmptyString)).
Proof.
  unfold getTokenInfo. rewrite run_bind, isTokenValid_run, !getStoredToken_run.
  destruct (stored this w) as [t|] eqn:Hst.
  - rewrite run_bind, !isTokenExpired_run.
    eexists _, _. split; [reflexivity|].
    split; [destruct (JS.truthy_num (expires_at t)); reflexivity|].
    split; [destruct (JS.truthy_num (expires_at t)); reflexivity|].
    cbn [info_exists info_valid info_hasRefreshToken fst].
    split; [reflexivity|].
    split; [intros Hn; rewrite (nothing_stored_none this w Hn) in Hst; discriminate|].
    split.
    + intros raw Hf. unfold stored in Hst. rewrite Hf in Hst. discriminate.
    + intros t' [= <-]. split; [reflexivity|].
      split; [rewrite isTokenExpired_run, negb_involutive; reflexivity|].
      unfold JS.truthy_str.
      destruct (refresh_token t) as [rt|].
      * destruct (String.eqb_spec rt EmptyString) as [->|Hne]; cbn [negb].
        -- split; [discriminate | intros (rt & [= <-] & H); contradiction].
        -- split; [eauto | reflexivity].
      * split; [discriminate | intros (rt & H & _); discriminate].
  - eexists _, _. split; [reflexivity|]. split; [reflexivity|]. split; [reflexivity|].
    cbn [info_exists info_valid info_hasRefreshToken fst].
    split; [reflexivity|].
    split; [intros _; split; reflexivity|].
    split; [|intros t [= ]].
    intros raw Hf. split; [|reflexivity].
    unfold hasStoredToken, fs.existsSync, gets. cbn [fst]. rewrite Hf.
    rewrite bool_decide_eq_true_2 by eauto. reflexivity.
Qed.

Lemma getTokenInfo_agrees_witness :
  fst (hasStoredToken Scenario.manager1 Scenario.corrupt) = Return true
  /\ exists info,
       fst (getTokenInfo Scenario.manager1 Scenario.corrupt) = Return info
       /\ info_exists info = false /\ info_valid info = false.
Proof.
  destruct (getTokenInfo_agrees Scenario.manager1 Scenario.corrupt)
    as (info & w' & Hrun & _ & _ & _ & Hnone & Hbad & _).
  destruct (Hbad "{access_token:" eq_refl) as [Hhas Hex].
  split; [exact Hhas|]. exists info. rewrite Hrun. split; [reflexivity|].
  apply Hnone. intros v Hv. discriminate.
Defined.

(** X5. [refreshToken] never throws and changes nothing. With a server
    whose success responses, when they are JSON, hold a token of the declared
    type: it returns a token only when [fetch] answered with a success status
    and a body that is this token, and returns the absent value on a
    transport error, a non-success status, and a body that is not JSON. *)
Theorem refreshToken_degrades (client : OAuthClient) (rt : string) (w : World) :
  typed_response (fetch_result (env w) (refreshRequest client rt)) ->
  exists r,
    refreshToken client rt w = (Return r, w)
    /\ (forall t, r = Some t ->
          exists response body,
            fetch_result (env w) (refreshRequest client rt) = Responded response
            /\ resp_ok response = true
            /\ resp_body response = JsonText body
            /\ Token.ofJSON body = Some t)
    /\ (r = None ->
        refresh_fails (fetch_result (env w) (refreshRequest client rt))
        \/ exists response raw,
             fetch_result (env w) (refreshRequest client rt) = Responded response
             /\ resp_body response = Garbage raw)
    /\ (refresh_fails (fetch_result (env w) (refreshRequest client rt)) -> r = None)
    /\ (forall response raw,
          fetch_result (env w) (refreshRequest client rt) = Responded response ->
          resp_body response = Garbage raw -> r = None).
Proof.
  intros Htyped.
  rewrite refreshToken_run. eexists. split; [reflexivity|].
  split; [|split; [|split]].
  - unfold refreshed_of. intros t Ht.
    destruct (fetch_result (env w) (refreshRequest client rt)) as [|response];
      [discriminate|].
    destruct (resp_ok response) eqn:Hok; [|discriminate].
    destruct (resp_body response) as [raw|body] eqn:Hbody; [discriminate|].
    exists response, body. auto.
  - unfold refreshed_of, refresh_fails. intros Hnone.
    destruct (fetch_result (env w) (refreshRequest client rt)) as [|response] eqn:Hf;
      [left; left; reflexivity|].
    destruct (resp_ok response) eqn:Hok; [|left; right; exists response; auto].
    destruct (resp_body response) as [raw|body] eqn:Hbody;
      [right; exists response, raw; auto|].
    destruct (Htyped response body eq_refl Hok Hbody) as [t Ht].
    rewrite Ht in Hnone. discriminate.
  - apply refresh_fails_none.
  - intros response raw -> Hbody. unfold refreshed_of. rewrite Hbody.
    destruct (resp_ok response); reflexivity.
Qed.

Lemma typed_response_token (ok : bool) (status : Z) (t : OAuthToken) :
  typed_response (Responded (mkResponse ok status (JsonText (Token.toJSON t)))).
Proof.
  intros response body [= <-] _ [= <-]. exists t. apply ofJSON_toJSON.
Qed.

Lemma typed_response_error : typed_response NetworkError.
Proof. intros response body [= ]. Qed.

Lemma refreshToken_degrades_witness :
  refreshToken Scenario.client1 "R" Scenario.stale_online
  = (Return (Some Scenario.renewed), Scenario.stale_online)
  /\ refreshToken Scenario.client1 "R" Scenario.stale_offline
     = (Return None, Scenario.stale_offline).
Proof.
  split.
  - destruct (refreshToken_degrades Scenario.client1 "R" Scenario.stale_online
                (typed_response_token true 200 Scenario.renewed))
      as (r & Hrun & _). rewrite Hrun. rewrite refreshToken_run in Hrun.
    injection Hrun as <-. reflexivity.
  - destruct (refreshToken_degrades Scenario.client1 "R" Scenario.stale_offline
                typed_response_error)
      as (r & Hrun & _ & _ & Hfail & _). rewrite Hrun. rewrite (Hfail (or_introl eq_refl)).
    reflexivity.
Defined.

(** ** Ways through getValidToken *)

(** The expired token has no refresh token that works: [useExisting] falls
    through to the callback, in the world the expiry check left. *)
Lemma useExisting_falls_through this client w token :
  stored this w = Some token ->
  expired_at this (clock (env w) (tick w)) token = true ->
  (forall rt, refresh_token token = Some rt ->
     refresh_fails (fetch_result (env w) (refreshRequest client rt))) ->
  useExisting this client w = (Return None, snd (isTokenExpired this token w)).
Proof.
  intros Hst Hexp Hfail. unfold useExisting.
  rewrite run_bind, getStoredToken_run, Hst. cbv beta iota.
  rewrite run_bind, isTokenExpired_run, Hexp. cbv beta iota. cbn [negb snd].
  destruct (JS.truthy_str (refresh_token token)) eqn:Hrt; [|reflexivity].
  destruct (refresh_token token) as [rt|]; [|discriminate].
  rewrite run_bind, refreshToken_run.
  replace (env (if JS.truthy_num (expires_at token) then set_tick S w else w))
    with (env w) by (destruct (JS.truthy_num (expires_at token)); reflexivity).
  change (default EmptyString (Some rt)) with rt.
  rewrite (refresh_fails_none _ (Hfail rt eq_refl)). reflexivity.
Qed.

(** The refresh succeeds: [useExisting] saves the new token, with the stored
    refresh token when it has none, and returns it. *)
Lemma useExisting_refreshed this client w existing rt refreshed :
  stored this w = Some existing ->
  expired_at this (clock (env w) (tick w)) existing = true ->
  refresh_token existing = Some rt -> rt <> EmptyString ->
  refreshed_of (fetch_result (env w) (refreshRequest client rt)) = Some refreshed ->
  let kept := if JS.truthy_str (refresh_token refreshed) then refreshed
              else with_refresh_token (Some rt) refreshed in
  useExisting this client w
  = (saveToken this kept ≫= fun _ => mret (Some kept))
      (snd (isTokenExpired this existing w)).
Proof.
  intros Hst Hexp Hrt Hne Hfetch kept. unfold useExisting.
  rewrite run_bind, getStoredToken_run, Hst. cbv beta iota.
  rewrite run_bind, isTokenExpired_run, Hexp. cbv beta iota. cbn [negb snd].
  rewrite Hrt, (truthy_str_some _ Hne).
  change (default EmptyString (Some rt)) with rt.
  rewrite run_bind, refreshToken_run.
  replace (env (if JS.truthy_num (expires_at existing) then set_tick S w else w))
    with (env w) by (destruct (JS.truthy_num (expires_at existing)); reflexivity).
  rewrite Hfetch. cbv beta iota. unfold kept.
  destruct (JS.truthy_str (refresh_token refreshed)); reflexivity.
Qed.

(** What a successful save leaves in the store. *)
Lemma saveToken_stored this token w :
  readonly w = false ->
  exists w' saved,
    saveToken this token w = (Return tt, w')
    /\ stored this w' = Some saved
    /\ created_at saved = Some (clock (env w) (tick w))
    /\ expires_at saved
       = Some (if JS.truthy_num (maxTokenLifetime this)
               then Z.min (clock (env w) (tick w) + expires_in token * 1000)
                          (clock (env w) (tick w) + default 0 (maxTokenLifetime this))
               else clock (env w) (tick w) + expires_in token * 1000)
    /\ access_token saved = access_token token
    /\ refresh_token saved = refresh_token token
    /\ flows w' = flows w.
Proof.
  intros Hro.
  destruct (saveToken_run this token w Hro) as (w' & Hrun & Hfiles & _ & _ & _ & _ & Hfl).
  eexists w', _. split; [exact Hrun|].
  split; [unfold stored; rewrite Hfiles, lookup_insert_eq, ofJSON_toJSON; reflexivity|].
  repeat split. exact Hfl.
Qed.



(** X7. The fallback chain: when the stored token is expired and the refresh
    exchange fails, or there is no refresh token to try, a callback that
    yields a token has it saved over the expired one and returned. *)
Theorem getValidToken_falls_back (this : OAuthTokenManager) (client : OAuthClient)
    (callback : M (option OAuthToken)) (w : World)
    (token : StoredOAuthToken) (t : OAuthToken) (w1 : World) :
  getStoredToken this w = (Return (Some token), w) ->
  fst (isTokenExpired this token w) = Return true ->
  (forall rt, refresh_token token = Some rt ->
     refresh_fails (fetch_result (env w) (refreshRequest client rt))) ->
  callback (snd (isTokenExpired this token w)) = (Return (Some t), w1) ->
  readonly w1 = false ->
  exists w2 saved,
    getValidToken this client (Some callback) w = (Return (Some t), w2)
    /\ getStoredToken this w2 = (Return (Some saved), w2)
    /\ created_at saved = Some (clock (env w1) (tick w1))
    /\ access_token saved = access_token t
    /\ refresh_token saved = refresh_token t.
Proof.
  rewrite getStoredToken_run. intros [= Hst] Hexp Hfail Hcb Hro.
  assert (Hexp' : expired_at this (clock (env w) (tick w)) token = true).
  { rewrite isTokenExpired_run in Hexp. cbn [fst] in Hexp. congruence. }
  unfold getValidToken.
  rewrite run_bind, (useExisting_falls_through this client w token Hst Hexp' Hfail).
  cbv beta iota. rewrite run_bind, Hcb. cbv beta iota.
  destruct (saveToken_stored this t w1 Hro)
    as (w2 & saved & Hsave & Hstored & Hc & _ & Ha & Hr & _).
  exists w2, saved. rewrite run_bind, Hsave.
  split; [reflexivity|].
  split; [rewrite getStoredToken_run, Hstored; reflexivity|]. auto.
Qed.

Lemma getValidToken_falls_back_witness :
  exists w2 saved,
    getValidToken Scenario.manager1 Scenario.client1
      (Some (mret (Some Scenario.renewed))) Scenario.stale_offline
    = (Return (Some Scenario.renewed), w2)
    /\ getStoredToken Scenario.manager1 w2 = (Return (Some saved), w2)
    /\ access_token saved = "B".
Proof.
  destruct (getValidToken_falls_back Scenario.manager1 Scenario.client1
              (mret (Some Scenario.renewed)) Scenario.stale_offline
              Scenario.kept Scenario.renewed (set_tick S Scenario.stale_offline)
              eq_refl eq_refl)
    as (w2 & saved & Hrun & Hget & _ & Ha & _).
  - intros rt _. left. reflexivity.
  - reflexivity.
  - reflexivity.
  - exists w2, saved. auto.
Defined.

(** X8. A write that fails crosses [getValidToken]: when the refresh exchange
    succeeds on a medium that refuses writes, [getValidToken] throws, the new
    token is not returned, and the store still holds the expired one. *)
Theorem getValidToken_write_failure (this : OAuthTokenManager) (client : OAuthClient)
    (onAuthenticationNeeded : option (M (option OAuthToken)))
    (w : World) (existing : StoredOAuthToken) (rt : string)
    (response : Response) (body : JSValue) (refreshed : OAuthToken) :
  getStoredToken this w = (Return (Some existing), w) ->
  fst (isTokenExpired this existing w) = Return true ->
  refresh_token existing = Some rt -> rt <> EmptyString ->
  fetch_result (env w) (refreshRequest client rt) = Responded response ->
  resp_ok response = true ->
  resp_body response = JsonText body ->
  Token.ofJSON body = Some refreshed ->
  readonly w = true ->
  exists e w',
    getValidToken this client onAuthenticationNeeded w = (Throw e, w')
    /\ files w' = files w
    /\ getStoredToken this w' = (Return (Some existing), w').
Proof.
  rewrite getStoredToken_run. intros [= Hst] Hexp Hrt Hne Hfetch Hok Hbody Hjson Hro.
  assert (Hexp' : expired_at this (clock (env w) (tick w)) existing = true).
  { rewrite isTokenExpired_run in Hexp. cbn [fst] in Hexp. congruence. }
  assert (Hre : refreshed_of (fetch_result (env w) (refreshRequest client rt))
                = Some refreshed).
  { rewrite Hfetch. unfold refreshed_of. rewrite Hok, Hbody. exact Hjson. }
  unfold getValidToken.
  rewrite run_bind,
    (useExisting_refreshed this client w existing rt refreshed Hst Hexp' Hrt Hne Hre).
  rewrite isTokenExpired_run. cbn [snd].
  set (w1 := if JS.truthy_num (expires_at existing) then set_tick S w else w).
  assert (Hro1 : readonly w1 = true)
    by (unfold w1; destruct (JS.truthy_num (expires_at existing)); exact Hro).
  assert (Hf1 : files w1 = files w)
    by (unfold w1; destruct (JS.truthy_num (expires_at existing)); reflexivity).
  match goal with
  | |- context [saveToken this ?k] =>
      destruct (saveToken_readonly this k w1 Hro1) as (e & w' & Hsave & Hfiles)
  end.
  rewrite run_bind, Hsave.
  exists e, w'. split; [reflexivity|].
  split; [congruence|].
  rewrite getStoredToken_run. unfold stored in *. rewrite Hfiles, Hf1, Hst. reflexivity.
Qed.

Lemma getValidToken_write_failure_witness :
  exists e w',
    getValidToken Scenario.manager1 Scenario.client1 None Case.stale_readonly
    = (Throw e, w')
    /\ getStoredToken Scenario.manager1 w' = (Return (Some Scenario.kept), w').
Proof.
  destruct (getValidToken_write_failure Scenario.manager1 Scenario.client1 None
              Case.stale_readonly Scenario.kept "R"
              (mkResponse true 200 (JsonText (Token.toJSON Scenario.renewed)))
              (Token.toJSON Scenario.renewed) Scenario.renewed
              eq_refl eq_refl eq_refl ltac:(discriminate) eq_refl eq_refl eq_refl
              eq_refl eq_refl)
    as (e & w' & Hrun & _ & Hget).
  exists e, w'. auto.
Defined.

(** X9. Every refresh restarts the maximum lifetime: the record saved after
    a successful refresh has the time of the refresh as its [created_at],
    whatever the [created_at] of the token it replaces, and its [expires_at]
    is counted from there. *)
Theorem getValidToken_refresh_restarts_lifetime (this : OAuthTokenManager)
    (client : OAuthClient) (onAuthenticationNeeded : option (M (option OAuthToken)))
    (w : World) (existing : StoredOAuthToken) (rt : string)
    (response : Response) (body : JSValue) (refreshed : OAuthToken) :
  getStoredToken this w = (Return (Some existing), w) ->
  fst (isTokenExpired this existing w) = Return true ->
  refresh_token existing = Some rt -> rt <> EmptyString ->
  fetch_result (env w) (refreshRequest client rt) = Responded response ->
  resp_ok response = true ->
  resp_body response = JsonText body ->
  Token.ofJSON body = Some refreshed ->
  readonly w = false ->
  let w1 := snd (isTokenExpired this existing w) in
  let now := clock (env w) (tick w1) in
  exists w' saved,
    snd (getValidToken this client onAuthenticationNeeded w) = w'
    /\ getStoredToken this w' = (Return (Some saved), w')
    /\ created_at saved = Some now
    /\ (forall m, set_to (maxTokenLifetime this) m ->
          expires_at saved = Some (now + Z.min (expires_in refreshed * 1000) m))
    /\ (unset (maxTokenLifetime this) ->
          expires_at saved = Some (now + expires_in refreshed * 1000)).
Proof.
  rewrite getStoredToken_run. intros [= Hst] Hexp Hrt Hne Hfetch Hok Hbody Hjson Hro.
  assert (Hexp' : expired_at this (clock (env w) (tick w)) existing = true).
  { rewrite isTokenExpired_run in Hexp. cbn [fst] in Hexp. congruence. }
  assert (Hre : refreshed_of (fetch_result (env w) (refreshRequest client rt))
                = Some refreshed).
  { rewrite Hfetch. unfold refreshed_of. rewrite Hok, Hbody. exact Hjson. }
  intros w1 now. unfold getValidToken.
  rewrite run_bind,
    (useExisting_refreshed this client w existing rt refreshed Hst Hexp' Hrt Hne Hre).
  fold w1.
  assert (Hro1 : readonly w1 = false).
  { unfold w1. rewrite isTokenExpired_run. cbn [snd].
    destruct (JS.truthy_num (expires_at existing)); exact Hro. }
  assert (He1 : env w1 = env w).
  { unfold w1. rewrite isTokenExpired_run. cbn [snd].
    destruct (JS.truthy_num (expires_at existing)); reflexivity. }
  match goal with
  | |- context [saveToken this ?k] =>
      destruct (saveToken_stored this k w1 Hro1)
        as (w' & saved & Hsave & Hstored & Hc & He & _);
      assert (Hin : expires_in k = expires_in refreshed)
        by (destruct (JS.truthy_str (refresh_token refreshed)); reflexivity)
  end.
  rewrite run_bind, Hsave. cbn [snd].
  exists w', saved. split; [reflexivity|].
  split; [rewrite getStoredToken_run, Hstored; reflexivity|].
  rewrite He1 in Hc, He. fold now in Hc, He. rewrite Hin in He.
  split; [exact Hc|]. split.
  - intros m Hm. destruct (truthy_num_set _ _ Hm) as [Ht Hd].
    rewrite He, Ht, Hd. f_equal. lia.
  - intros Hu. rewrite He, (truthy_num_unset _ Hu). reflexivity.
Qed.

Lemma getValidToken_refresh_restarts_lifetime_witness :
  exists w' saved,
    getStoredToken Scenario.manager1 w' = (Return (Some saved), w')
    /\ created_at saved = Some 5000001
    /\ expires_at saved = Some 8600001.
Proof.
  destruct (getValidToken_refresh_restarts_lifetime Scenario.manager1 Scenario.client1
              None Scenario.stale_online Scenario.kept "R"
              (mkResponse true 200 (JsonText (Token.toJSON Scenario.renewed)))
              (Token.toJSON Scenario.renewed) Scenario.renewed
              eq_refl eq_refl eq_refl ltac:(discriminate) eq_refl eq_refl eq_refl
              eq_refl eq_refl)
    as (w' & saved & _ & Hget & Hc & Hmax & _).
  exists w', saved. split; [exact Hget|]. split; [exact Hc|].
  apply (Hmax 3600000). split; [reflexivity | discriminate].
Defined.

(** ** Credentials *)

Lemma lacks_run props k w :
  lacks (JObj props) k w
  = (Return (negb (JS.truthy (default JUndefined (JS.assoc k props)))), w).
Proof. reflexivity. Qed.

Lemma missingRequiredFields_run props w :
  missingRequiredFields (JObj props) w = (Return (negb (complete props)), w).
Proof.
  unfold missingRequiredFields, complete.
  rewrite run_bind, lacks_run.
  destruct (JS.truthy (default JUndefined (JS.assoc "client_id" props)));
    [|reflexivity].
  cbn [negb andb]. rewrite run_bind, lacks_run.
  destruct (JS.truthy (default JUndefined (JS.assoc "client_secret" props)));
    [|reflexivity].
  cbn [negb andb]. rewrite run_bind, lacks_run.
  destruct (JS.truthy (default JUndefined (JS.assoc "auth_uri" props)));
    [|reflexivity].
  cbn [negb andb]. rewrite lacks_run. reflexivity.
Qed.

(** Validation of a value that is not an object: it throws on [null] and
    [undefined], and finds the fields missing otherwise. *)
Lemma missingRequiredFields_other c w :
  (forall props, c <> JObj props) ->
  (c = JNull \/ c = JUndefined ->
   exists msg, missingRequiredFields c w = (Throw (TypeError msg), w))
  /\ (c <> JNull -> c <> JUndefined -> missingRequiredFields c w = (Return true, w)).
Proof.
  intros Hobj. split.
  - intros [-> | ->]; eexists; reflexivity.
  - intros Hn Hu. destruct c; try reflexivity; try contradiction.
    exfalso. apply (Hobj props). reflexivity.
Qed.

(** The validated credentials of parsed JSON, under a key or at the top. *)
Lemma validate_run (json : JSValue) (credentialsKey : option string) w :
  exists r,
    (credentials ←
       (if JS.truthy_str credentialsKey
        then lift (JS.get json (default EmptyString credentialsKey))
        else mret json);
     missing ← missingRequiredFields credentials;
     if missing : bool
     then throw (Error "Invalid credentials format - missing required fields")
     else mret (Some credentials)) w = (r, w)
    /\ (forall c, r = Return (Some c) <->
          exists props,
            c = JObj props /\ complete props = true
            /\ (if JS.truthy_str credentialsKey
                then JS.get json (default EmptyString credentialsKey)
                else Return json) = Return c)
    /\ (forall c, r = Return c -> c <> None).
Proof.
  rewrite run_bind.
  assert (Hstep :
    (if JS.truthy_str credentialsKey
     then lift (JS.get json (default EmptyString credentialsKey))
     else mret json) w
    = ((if JS.truthy_str credentialsKey
        then JS.get json (default EmptyString credentialsKey)
        else Return json), w)).
  { destruct (JS.truthy_str credentialsKey); reflexivity. }
  rewrite Hstep. clear Hstep.
  destruct (if JS.truthy_str credentialsKey
            then JS.get json (default EmptyString credentialsKey)
            else Return json) as [c|e].
  - destruct c as [| | b | n | s | xs | props];
      try (eexists; split; [reflexivity|];
           split; [intros c; split; [discriminate | intros (p & -> & _ & [= ])]
                  | intros c; discriminate]).
    rewrite run_bind, missingRequiredFields_run.
    destruct (complete props) eqn:Hc; cbn [negb].
    + eexists. split; [reflexivity|]. split.
      * intros c. split.
        -- intros [= <-]. eauto.
        -- intros (p & -> & _ & [= ->]). reflexivity.
      * intros c [= <-]. discriminate.
    + eexists. split; [reflexivity|]. split.
      * intros c. split; [discriminate|].
        intros (p & -> & Hp & [= ->]). congruence.
      * intros c. discriminate.
  - eexists. split; [reflexivity|]. split.
    + intros c. split; [discriminate | intros (p & _ & _ & [= ])].
    + intros c. discriminate.
Qed.

(** X10. [loadCredentialsFromFile] never throws and changes nothing. For a
    file that does not hold a JSON array when a key is given (a key can be
    an index of an array, which [JS.get] does not follow): it returns
    credentials exactly when the file can be read, holds JSON, and the value
    under the key (the top-level value when no key is given) is an object
    whose four required fields are truthy; it then returns that object. In
    every other case it returns the absent value. *)
Theorem loadCredentialsFromFile_spec (filePath : string)
    (credentialsKey : option string) (w : World) :
  (JS.truthy_str credentialsKey = true ->
   forall xs, files w !! filePath <> Some (Readable (JsonText (JArr xs)))) ->
  exists r,
    loadCredentialsFromFile filePath credentialsKey w = (Return r, w)
    /\ (forall c, r = Some c <->
          exists json props,
            files w !! filePath = Some (Readable (JsonText json))
            /\ (if JS.truthy_str credentialsKey
                then JS.get json (default EmptyString credentialsKey)
                else Return json) = Return c
            /\ c = JObj props /\ complete props = true).
Proof.
  intros _.
  unfold loadCredentialsFromFile. rewrite run_bind.
  unfold fs.existsSync, gets. cbv beta iota.
  destruct (files w !! filePath) as [[|[raw|json]]|] eqn:Hf.
  - rewrite bool_decide_eq_true_2 by eauto. cbn [orb negb].
    unfold try_catch. rewrite run_bind. unfold fs.readFileSync. rewrite Hf.
    exists None. split; [reflexivity|].
    intros c. split; [discriminate | intros (j & p & [= ] & _)].
  - rewrite bool_decide_eq_true_2 by eauto. cbn [orb negb].
    unfold try_catch. rewrite run_bind. unfold fs.readFileSync. rewrite Hf.
    cbv beta iota. rewrite run_bind. cbn [JSON.parse]. unfold throw at 1.
    exists None. split; [reflexivity|].
    intros c. split; [discriminate | intros (j & p & [= ] & _)].
  - rewrite bool_decide_eq_true_2 by eauto. cbn [orb negb].
    unfold try_catch. rewrite run_bind. unfold fs.readFileSync. rewrite Hf.
    cbv beta iota. rewrite run_bind. cbn [JSON.parse]. unfold ret at 1.
    cbv beta iota.
    destruct (validate_run json credentialsKey w) as (r & -> & Hsome & Hnn).
    destruct r as [[c|]|e].
    + exists (Some c). split; [reflexivity|].
      intros c'. split.
      * intros [= <-]. destruct (proj1 (Hsome c) eq_refl) as (p & -> & Hp & Hg).
        exists json, p. auto.
      * intros (j & p & [= <-] & Hg & -> & Hp).
        assert (Return (Some c) = Return (Some (JObj p))) as [= ->]; [|reflexivity].
        apply Hsome. eauto.
    + exfalso. apply (Hnn None); reflexivity.
    + exists None. split; [reflexivity|].
      intros c. split; [discriminate|].
      intros (j & p & [= <-] & Hg & -> & Hp).
      assert (H : Throw e = Return (Some (JObj p))) by (apply Hsome; eauto).
      discriminate.
  - rewrite bool_decide_eq_false_2 by (intros [? ?]; discriminate). cbn [orb].
    destruct (bool_decide (filePath ∈ dirs w)) eqn:Hd; cbn [negb].
    + unfold try_catch. rewrite run_bind. unfold fs.readFileSync. rewrite Hf, Hd.
      exists None. split; [reflexivity|].
      intros c. split; [discriminate | intros (j & p & [= ] & _)].
    + exists None. split; [reflexivity|].
      intros c. split; [discriminate | intros (j & p & [= ] & _)].
Qed.

Lemma loadCredentialsFromFile_spec_witness :
  loadCredentialsFromFile "/home/u/credentials.json" (Some "installed")
    Scenario.with_google_file
  = (Return (Some Scenario.credentials1), Scenario.with_google_file).
Proof.
  destruct (loadCredentialsFromFile_spec "/home/u/credentials.json" (Some "installed")
              Scenario.with_google_file ltac:(intros _ xs; discriminate))
    as (r & Hrun & Hiff).
  rewrite Hrun. do 2 f_equal. apply Hiff.
  eexists Scenario.googleCredentials, _.
  split; [reflexivity|]. split; [reflexivity|]. split; reflexivity.
Defined.

(** X11. [parseCredentialsFromString] does to a JSON string what
    [loadCredentialsFromFile] does to a file that holds it: same result,
    under any key. *)
Theorem parseCredentialsFromString_agrees (filePath : string) (text : Text)
    (credentialsKey : option string) (w : World) :
  files w !! filePath = Some (Readable text) ->
  parseCredentialsFromString text credentialsKey w
  = loadCredentialsFromFile filePath credentialsKey w.
Proof.
  intros Hf. unfold parseCredentialsFromString, loadCredentialsFromFile.
  rewrite (run_bind (fs.existsSync filePath)).
  unfold fs.existsSync, gets. cbv beta iota.
  rewrite Hf, bool_decide_eq_true_2 by eauto. cbn [orb negb].
  unfold try_catch. rewrite (run_bind (fs.readFileSync filePath)).
  unfold fs.readFileSync. rewrite Hf. reflexivity.
Qed.

Lemma parseCredentialsFromString_agrees_witness :
  parseCredentialsFromString (JsonText Scenario.googleCredentials) (Some "installed")
    Scenario.with_google_file
  = (Return (Some Scenario.credentials1), Scenario.with_google_file).
Proof.
  rewrite (parseCredentialsFromString_agrees "/home/u/credentials.json"
             (JsonText Scenario.googleCredentials) (Some "installed")
             Scenario.with_google_file eq_refl).
  reflexivity.
Defined.

(** X12. A key that the credentials do not have, neither as a property of
    their own nor from [Object.prototype]. Handed the object,
    [authenticateOAuth] resolves it as if no key had been given: it goes on
    to auto-detection and the flat shape. Handed a file that holds the same
    object, the loader fails, and returns the absent value even when the
    object is a complete set of flat credentials. *)
Theorem absent_key_object_and_file (props : list (string * JSValue)) (key : string)
    (w : World) :
  key <> EmptyString ->
  JS.assoc key props = None ->
  key ∉ Object_prototype ->
  resolveCredentials (CredentialsData (JObj props)) (Some key) w
  = resolveCredentials (CredentialsData (JObj props)) None w
  /\ forall filePath,
       files w !! filePath = Some (Readable (JsonText (JObj props))) ->
       loadCredentialsFromFile filePath (Some key) w = (Return None, w).
Proof.
  intros Hne Hkey _. split.
  - unfold resolveCredentials. rewrite (truthy_str_some _ Hne).
    rewrite !run_bind. unfold lift at 1. cbn [JS.has default].
    unfold id.
    rewrite Hkey, bool_decide_eq_false_2 by (intros [? ?]; discriminate).
    reflexivity.
  - intros filePath Hf.
    unfold loadCredentialsFromFile. rewrite run_bind.
    unfold fs.existsSync, gets. cbv beta iota.
    rewrite Hf, bool_decide_eq_true_2 by eauto. cbn [orb negb].
    unfold try_catch. rewrite run_bind. unfold fs.readFileSync. rewrite Hf.
    cbv beta iota. rewrite run_bind. cbn [JSON.parse]. unfold ret at 1.
    cbv beta iota.
    destruct (validate_run (JObj props) (Some key) w) as (r & -> & Hsome & Hnn).
    destruct r as [[c|]|e]; [exfalso | exfalso; apply (Hnn None); reflexivity
                            | reflexivity].
    destruct (proj1 (Hsome c) eq_refl) as (p & -> & _ & Hget).
    rewrite (truthy_str_some _ Hne) in Hget.
    change (default EmptyString (Some key)) with key in Hget.
    cbn [JS.get] in Hget. rewrite Hkey in Hget. discriminate.
Qed.

Lemma absent_key_object_and_file_witness :
  fst (resolveCredentials (CredentialsData Scenario.credentials1) (Some "installed")
         Case.with_flat_file)
  = Return (Some Scenario.credentials1)
  /\ loadCredentialsFromFile "/home/u/credentials.json" (Some "installed")
       Case.with_flat_file
     = (Return None, Case.with_flat_file).
Proof.
  destruct (absent_key_object_and_file
              [("client_id", JStr "id");
               ("client_secret", JStr "secret");
               ("auth_uri", JStr "https://example.org/auth");
               ("token_uri", JStr "https://example.org/token");
               ("redirect_uris", JArr [JStr "http://localhost:9326/oauth2callback"])]
              "installed" Case.with_flat_file ltac:(discriminate) eq_refl
              ltac:(repeat (apply not_elem_of_cons; split; [discriminate|]);
                    apply not_elem_of_nil))
    as [Hobj Hfile].
  split.
  - change (fst (resolveCredentials (CredentialsData Scenario.credentials1)
                   (Some "installed") Case.with_flat_file)
            = Return (Some Scenario.credentials1)).
    unfold Scenario.credentials1. rewrite Hobj. reflexivity.
  - apply Hfile. reflexivity.
Defined.

(** X13. Credentials that resolve to an object without the four required
    fields, all truthy: [authenticateOAuth] returns the absent value and
    does nothing, no token is read or written and no flow is started. *)
Theorem authenticateOAuth_incomplete (input : CredentialsInput)
    (options : Auth.Options) (w : World) (props : list (string * JSValue)) :
  fst (resolveCredentials input (Auth.credentialsKey options) w)
  = Return (Some (JObj props)) ->
  complete props = false ->
  authenticateOAuth input options w = (Return None, w).
Proof.
  intros Hres Hc. unfold authenticateOAuth.
  rewrite (run_bind_return _ _ w (Some (JObj props)) w)
    by (rewrite (inert_run _ w (inert_resolveCredentials _ _)), Hres; reflexivity).
  cbv beta iota. rewrite run_bind, missingRequiredFields_run, Hc. reflexivity.
Qed.

Lemma authenticateOAuth_incomplete_witness :
  authenticateOAuth
    (CredentialsData (JObj [("web", JObj [("client_id", JStr "id");
                                          ("client_secret", JStr EmptyString)])]))
    Scenario.authOptions1 Scenario.fresh
  = (Return None, Scenario.fresh).
Proof.
  apply (authenticateOAuth_incomplete _ _ _
           [("client_id", JStr "id"); ("client_secret", JStr EmptyString)]);
    reflexivity.
Defined.



(** ** The wait on the listener *)

Lemma waitLoop_run deadline signal events w :
  waitLoop deadline signal events w
  = (Return (fst (wait_outcome deadline signal events)),
     match snd (wait_outcome deadline signal events) with
     | Some status => set_replies (cons status) w
     | None => w
     end).
Proof.
  induction events as [|[t ev] events IH]; cbn [waitLoop wait_outcome]; [reflexivity|].
  destruct (deadline <=? t); [reflexivity|].
  destruct ev as [[query|]|]; cbn [ignored].
  - destruct (JS.truthy_str (Params.last "code" query)); cbn [negb andb];
      [reflexivity|].
    destruct (JS.truthy_str (Params.last "error" query)); cbn [negb];
      [reflexivity | exact IH].
  - exact IH.
  - destruct signal; cbn [negb]; [reflexivity | exact IH].
Qed.

Lemma waitForOAuthCallback_run server timeout signal w :
  waitForOAuthCallback server timeout signal w
  = (Return (fst (wait_outcome (timeout * 1000) signal (arrivals (env w)))),
     match snd (wait_outcome (timeout * 1000) signal (arrivals (env w))) with
     | Some status => set_replies (cons status) w
     | None => w
     end).
Proof. unfold waitForOAuthCallback. rewrite run_gets. apply waitLoop_run. Qed.

(** Events the wait ignores, arriving in time, do not change what it comes
    to. *)
Lemma wait_outcome_skip deadline signal pre rest :
  (forall t ev, (t, ev) ∈ pre -> t < deadline /\ ignored signal ev = true) ->
  wait_outcome deadline signal (pre ++ rest) = wait_outcome deadline signal rest.
Proof.
  induction pre as [|[t ev] pre IH]; intros Hpre; [reflexivity|].
  cbn [app wait_outcome].
  destruct (Hpre t ev (list_elem_of_here _ _)) as [Ht Hig].
  destruct (Z.leb_spec deadline t); [lia|]. rewrite Hig.
  apply IH. intros t' ev' Hin. apply Hpre, list_elem_of_further, Hin.
Qed.

(** What comes of the wait comes from a request that arrived in time. *)
Lemma wait_outcome_inv deadline signal events :
  match wait_outcome deadline signal events with
  | (code, Some status) =>
      exists t query,
        (t, HttpRequest (Some query)) ∈ events /\ t < deadline
        /\ ((status = 200 /\ code = Params.last "code" query
             /\ JS.truthy_str code = true)
            \/ (status = 400 /\ code = None
                /\ JS.truthy_str (Params.last "error" query) = true))
  | (code, None) => code = None
  end.
Proof.
  induction events as [|[t ev] events IH]; cbn [wait_outcome]; [reflexivity|].
  destruct (Z.leb_spec deadline t); [reflexivity|].
  destruct (ignored signal ev) eqn:Hig.
  - destruct (wait_outcome deadline signal events) as [code [status|]]; [|exact IH].
    destruct IH as (t' & q & Hin & Hrest). exists t', q.
    split; [apply list_elem_of_further, Hin | exact Hrest].
  - destruct ev as [[query|]|]; [|discriminate|reflexivity].
    cbn [ignored] in Hig.
    destruct (JS.truthy_str (Params.last "code" query)) eqn:Hc.
    + exists t, query. split; [apply list_elem_of_here|]. split; [lia|]. left. auto.
    + cbn [negb andb] in Hig. apply negb_false_iff in Hig.
      exists t, query. split; [apply list_elem_of_here|]. split; [lia|]. right. auto.
Qed.

(** X15. With a timeout that [setTimeout] takes as it is given (between
    1 ms and 2147483647 ms): the first request that carries a code or an
    error ends the wait on the listener, when it arrives before the timer
    fires and everything that arrived before it was ignored: with a code,
    the code is returned and the request answered 200; with an error and no
    code, the absent value is returned and the request answered 400. What
    arrives later plays no part. *)
Theorem waitForOAuthCallback_first_terminal (server timeout : Z) (signal : bool)
    (w : World) (pre : list (Z * CallbackEvent)) (t : Z)
    (query : list (string * string)) (post : list (Z * CallbackEvent)) :
  timer_range (timeout * 1000) ->
  arrivals (env w) = (pre ++ (t, HttpRequest (Some query)) :: post)%list ->
  (forall t' ev, (t', ev) ∈ pre -> t' < timeout * 1000 /\ ignored signal ev = true) ->
  t < timeout * 1000 ->
  (JS.truthy_str (Params.last "code" query) = true ->
   waitForOAuthCallback server timeout signal w
   = (Return (Params.last "code" query), set_replies (cons 200) w))
  /\ (JS.truthy_str (Params.last "code" query) = false ->
      JS.truthy_str (Params.last "error" query) = true ->
      waitForOAuthCallback server timeout signal w
      = (Return None, set_replies (cons 400) w)).
Proof.
  intros _ Harr Hpre Ht.
  rewrite waitForOAuthCallback_run, Harr, (wait_outcome_skip _ _ _ _ Hpre).
  cbn [wait_outcome ignored]. destruct (Z.leb_spec (timeout * 1000) t); [lia|].
  split.
  - intros ->. reflexivity.
  - intros -> ->. reflexivity.
Qed.

Lemma waitForOAuthCallback_first_terminal_witness :
  waitForOAuthCallback 9326 300 false Case.granting
  = (Return (Some "4/abc"), set_replies (cons 200) Case.granting).
Proof.
  apply (waitForOAuthCallback_first_terminal 9326 300 false Case.granting
           [(1500, HttpRequest (Some [("favicon", "ico")]))] 2000
           [("code", "4/abc"); ("scope", "contacts.readonly")] []).
  - unfold timer_range. lia.
  - reflexivity.
  - intros t' ev Hin. apply list_elem_of_singleton in Hin. injection Hin as -> ->.
    split; [vm_compute; reflexivity | reflexivity].
  - vm_compute. reflexivity.
  - reflexivity.
Defined.

(** X16. With a timeout that [setTimeout] takes as it is given: the wait on
    the listener does not reject, and when it has settled it has answered at
    most one request, the one that ended it. A code it returns is the code
    of a request that arrived before the timer fired, and that request was
    answered 200. The requests are those whose URL the handler can parse,
    the only ones [CallbackEvent] has. *)
Theorem waitForOAuthCallback_answers_once (server timeout : Z) (signal : bool)
    (w : World) (r : Outcome (option string)) (w' : World) :
  timer_range (timeout * 1000) ->
  waitForOAuthCallback server timeout signal w = (r, w') ->
  exists code,
    r = Return code
    /\ frame w w'
    /\ (replies w' = replies w \/ replies w' = 200 :: replies w
        \/ replies w' = 400 :: replies w)
    /\ (forall c, code = Some c ->
          replies w' = 200 :: replies w
          /\ exists t query,
               (t, HttpRequest (Some query)) ∈ arrivals (env w)
               /\ t < timeout * 1000
               /\ Params.last "code" query = Some c).
Proof.
  intros _. rewrite waitForOAuthCallback_run.
  pose proof (wait_outcome_inv (timeout * 1000) signal (arrivals (env w))) as Hinv.
  destruct (wait_outcome (timeout * 1000) signal (arrivals (env w)))
    as [code [status|]]; cbn [fst snd]; intros [= <- <-].
  - destruct Hinv as (t & q & Hin & Ht & [(-> & -> & Hc) | (-> & -> & He)]).
    + eexists. split; [reflexivity|]. split; [repeat split|].
      split; [right; left; reflexivity|].
      intros c Hcode. split; [reflexivity|]. exists t, q. auto.
    + eexists. split; [reflexivity|]. split; [repeat split|].
      split; [right; right; reflexivity|]. intros c [= ].
  - subst code. eexists. split; [reflexivity|]. split; [apply frame_refl|].
    split; [left; reflexivity|]. intros c [= ].
Qed.

Lemma waitForOAuthCallback_answers_once_witness :
  exists t query,
    (t, HttpRequest (Some query)) ∈ arrivals (env Case.granting)
    /\ t < 300 * 1000
    /\ Params.last "code" query = Some "4/abc".
Proof.
  destruct (waitForOAuthCallback_answers_once 9326 300 false Case.granting
              (Return (Some "4/abc")) (set_replies (cons 200) Case.granting))
    as (code & Hr & _ & _ & Hcode).
  - unfold timer_range. lia.
  - rewrite waitForOAuthCallback_run. reflexivity.
  - injection Hr as <-. destruct (Hcode "4/abc" eq_refl) as (_ & t & q & H).
    exists t, q. exact H.
Defined.

(** ** The authorization flow *)

Lemma startLocalOAuthServer_listen redirectUri w :
  startLocalOAuthServer redirectUri w
  = match listen_port w redirectUri with
    | Some server => (Return server, set_listening (cons server) w)
    | None => (Throw (match redirectUri with
                      | JStr uri => match url_port (env w) uri with
                                    | Some _ => SystemError "EADDRINUSE"
                                    | None => TypeError "Invalid URL"
                                    end
                      | _ => TypeError "Invalid URL"
                      end), w)
    end.
Proof.
  unfold startLocalOAuthServer, listen_port.
  destruct redirectUri; try reflexivity.
  destruct (url_port (env w) s); [|reflexivity].
  destruct (_ || _); reflexivity.
Qed.

Lemma listen_port_free w redirectUri server :
  listen_port w redirectUri = Some server -> server ∉ listening w.
Proof.
  unfold listen_port. destruct redirectUri; try discriminate.
  destruct (url_port (env w) s); [|discriminate].
  destruct (port_busy _ _); [discriminate|]. cbn [orb].
  destruct (bool_decide _) eqn:Hin; [discriminate|].
  intros [= <-]. apply bool_decide_eq_false in Hin. exact Hin.
Qed.

Lemma authorizationUrl_run props options redirectUri w :
  authorizationUrl (JObj props) options redirectUri w
  = (Return (authUrl_of props options redirectUri), w).
Proof. reflexivity. Qed.

Lemma codeRequest_run props authCode redirectUri w :
  codeRequest (JObj props) authCode redirectUri w
  = (Return (exchange_request props authCode redirectUri), w).
Proof. reflexivity. Qed.

Lemma getToken_run props options redirectUri w :
  JS.first (default JUndefined (JS.assoc "redirect_uris" props)) = Return redirectUri ->
  getToken (JObj props) options w
  = match listen_port w redirectUri with
    | None => (Return None, set_flows (cons options) w)
    | Some server =>
        let out := wait_outcome (JS.or_num (timeoutSeconds options) 300 * 1000)
                     (signal options) (arrivals (env w)) in
        (Return (if JS.truthy_str (fst out)
                 then refreshed_of
                        (fetch_result (env w)
                           (exchange_request props (default EmptyString (fst out))
                              redirectUri))
                 else None),
         mkWorld (env w) (files w) (dirs w) (readonly w) (tick w) (listening w)
                 (authUrl_of props options redirectUri :: opened w)
                 (match snd out with
                  | Some status => status :: replies w
                  | None => replies w
                  end)
                 (options :: flows w))
    end.
Proof.
  intros Hfirst. unfold getToken.
  rewrite run_bind. unfold modify at 1. cbv beta iota.
  cbn [JS.get]. rewrite run_bind. unfold lift at 1. cbv beta iota.
  rewrite Hfirst, run_bind. unfold lift at 1. cbv beta iota.
  rewrite run_bind. unfold settle. rewrite startLocalOAuthServer_listen.
  change (listen_port (set_flows (cons options) w) redirectUri)
    with (listen_port w redirectUri).
  destruct (listen_port w redirectUri) as [server|] eqn:Hport; [|reflexivity].
  apply listen_port_free in Hport.
  rewrite run_bind. unfold try_finally, try_catch at 1.
  rewrite run_bind, authorizationUrl_run.
  rewrite run_bind. unfold openBrowser, try_catch at 1, execAsync.
  assert (Hopen : forall w0 : World,
            match (if exec_ok (env w0) then Return tt else Throw (Error "Command failed"),
                   set_opened (cons (authUrl_of props options redirectUri)) w0) with
            | (Return a, w') => (Return a, w')
            | (Throw e, w') => (mret tt : M unit) w'
            end = (Return tt, set_opened (cons (authUrl_of props options redirectUri)) w0)).
  { intros w0. destruct (exec_ok (env w0)); reflexivity. }
  rewrite Hopen. clear Hopen.
  rewrite run_bind, waitForOAuthCallback_run.
  cbn [env set_opened set_listening set_flows].
  set (out := wait_outcome _ _ _). clearbody out. destruct out as [code status].
  cbn [fst snd].
  unfold mret at 1, M_ret at 1, ret at 1, server_close, modify. cbv beta iota.
  match goal with
  | |- context [set_listening ?f ?w0] =>
      assert (Hclosed :
        set_listening f w0
        = mkWorld (env w) (files w) (dirs w) (readonly w) (tick w) (listening w)
            (authUrl_of props options redirectUri :: opened w)
            (match status with
             | Some status => status :: replies w
             | None => replies w
             end)
            (options :: flows w))
  end.
  { destruct status; unfold set_listening, set_replies, set_opened, set_flows;
      cbn [env files dirs readonly tick listening opened replies flows];
      rewrite close_after_listen by exact Hport; reflexivity. }
  rewrite Hclosed. clear Hclosed.
  destruct (JS.truthy_str code); cbn [negb]; [|reflexivity].
  rewrite run_bind, codeRequest_run. unfold try_catch. rewrite run_bind.
  unfold fetch. cbn [env].
  destruct (fetch_result (env w) _) as [|response]; cbn [refreshed_of]; [reflexivity|].
  destruct (resp_ok response); cbn [negb]; [|reflexivity].
  destruct (resp_body response); reflexivity.
Qed.

Lemma truthy_str_inv (x : option string) :
  JS.truthy_str x = true <-> exists s, x = Some s /\ s <> EmptyString.
Proof.
  destruct x as [s|]; cbn.
  - rewrite negb_true_iff, String.eqb_neq. split.
    + intros Hs. exists s. auto.
    + intros (s' & [= <-] & Hs). exact Hs.
  - split; [discriminate | intros (s & [= ] & _)].
Qed.

Lemma fetch_run request w :
  fst (fetch request w)
  = match fetch_result (env w) request with
    | NetworkError => Throw (TypeError "fetch failed")
    | Responded response => Return response
    end.
Proof. unfold fetch. destruct (fetch_result (env w) request); reflexivity. Qed.

Lemma refreshed_of_some (r : FetchResult) (token : OAuthToken) :
  refreshed_of r = Some token
  <-> exists response body,
        r = Responded response /\ resp_ok response = true
        /\ resp_body response = JsonText body /\ Token.ofJSON body = Some token.
Proof.
  split.
  - destruct r as [|response]; cbn [refreshed_of]; [discriminate|].
    destruct (resp_ok response) eqn:Hok; [|discriminate].
    destruct (resp_body response) as [raw|body] eqn:Hbody; [discriminate|].
    intros Htok. exists response, body. auto.
  - intros (response & body & -> & Hok & Hbody & Htok).
    cbn [refreshed_of]. rewrite Hok, Hbody. exact Htok.
Qed.

(** X17. With credentials that are an object whose [redirect_uris] is an
    array, a timeout that [setTimeout] takes as it is given, and a server
    whose success responses to the exchange, when they are JSON, hold a
    token of the declared type: [getToken] does not throw, and when it has
    returned, the files, the directories and the open listeners are as they
    were. It returns a token exactly when the listener
    for the first redirect URI could be started, the wait on it returned a
    code that is not empty, and the exchange of that code was answered with
    a success status and a body that is this token. In every other case in
    which it returns (the port is taken, the wait times out or is cancelled,
    the provider reports an error, the exchange fails) it returns the absent
    value. *)
Theorem getToken_result (props : list (string * JSValue)) (uris : list JSValue)
    (options : OAuthGetTokenOptions) (w : World)
    (r : Outcome (option OAuthToken)) (w' : World) :
  JS.assoc "redirect_uris" props = Some (JArr uris) ->
  let redirectUri := default JUndefined (head uris) in
  timer_range (JS.or_num (timeoutSeconds options) 300 * 1000) ->
  (forall code request,
     fst (codeRequest (JObj props) code redirectUri w) = Return request ->
     typed_response (fetch_result (env w) request)) ->
  getToken (JObj props) options w = (r, w') ->
  exists result,
    r = Return result
    /\ files w' = files w /\ dirs w' = dirs w /\ listening w' = listening w
    /\ (forall token,
         result = Some token
         <-> exists server code request response body,
               fst (startLocalOAuthServer redirectUri w) = Return server
               /\ fst (waitForOAuthCallback server
                         (JS.or_num (timeoutSeconds options) 300) (signal options) w)
                  = Return (Some code)
               /\ code <> EmptyString
               /\ fst (codeRequest (JObj props) code redirectUri w) = Return request
               /\ fst (fetch request w) = Return response
               /\ resp_ok response = true
               /\ resp_body response = JsonText body
               /\ Token.ofJSON body = Some token)
    /\ (result = None
        -> (forall server, fst (startLocalOAuthServer redirectUri w) <> Return server)
           \/ (exists server code,
                 fst (startLocalOAuthServer redirectUri w) = Return server
                 /\ fst (waitForOAuthCallback server
                           (JS.or_num (timeoutSeconds options) 300) (signal options) w)
                    = Return code
                 /\ JS.truthy_str code = false)
           \/ (exists server code request,
                 fst (waitForOAuthCallback server
                        (JS.or_num (timeoutSeconds options) 300) (signal options) w)
                 = Return (Some code)
                 /\ fst (codeRequest (JObj props) code redirectUri w) = Return request
                 /\ (refresh_fails (fetch_result (env w) request)
                     \/ exists response raw,
                          fetch_result (env w) request = Responded response
                          /\ resp_body response = Garbage raw))).
Proof.
  intros Huris redirectUri _ Htyped.
  rewrite (getToken_run props options redirectUri w)
    by (rewrite Huris; reflexivity).
  destruct (listen_port w redirectUri) as [server|] eqn:Hport.
  - cbv zeta. intros [= <- <-]. eexists. split; [reflexivity|].
    split; [reflexivity|]. split; [reflexivity|]. split; [reflexivity|].
    set (out := wait_outcome _ _ _).
    assert (Hwait : forall s,
              fst (waitForOAuthCallback s (JS.or_num (timeoutSeconds options) 300)
                     (signal options) w) = Return (fst out))
      by (intros s; rewrite waitForOAuthCallback_run; reflexivity).
    split.
    + intros token. split.
      * destruct (JS.truthy_str (fst out)) eqn:Hcode; [|discriminate].
        apply truthy_str_inv in Hcode. destruct Hcode as (code & Hout & Hne).
        rewrite Hout. cbn [default]. unfold id.
        intros (response & body & Hfetch & Hok & Hbody & Htok)%refreshed_of_some.
        exists server, code, (exchange_request props code redirectUri), response, body.
        split; [rewrite startLocalOAuthServer_listen, Hport; reflexivity|].
        split; [rewrite Hwait, Hout; reflexivity|].
        split; [exact Hne|]. split; [reflexivity|].
        split; [rewrite fetch_run, Hfetch; reflexivity|]. auto.
      * intros (server' & code & request & response & body
                & Hs & Hw & Hne & Hreq & Hfetch & Hok & Hbody & Htok).
        rewrite Hwait in Hw. injection Hw as Hout. rewrite Hout.
        assert (Htruthy : JS.truthy_str (Some code) = true)
          by (apply truthy_str_inv; exists code; auto).
        rewrite Htruthy. cbn [default]. unfold id.
        rewrite codeRequest_run in Hreq. injection Hreq as <-.
        rewrite fetch_run in Hfetch.
        apply refreshed_of_some. exists response, body.
        destruct (fetch_result (env w) _) as [|response']; [discriminate|].
        injection Hfetch as ->. auto.
    + intros Hnone. right.
      destruct (JS.truthy_str (fst out)) eqn:Hcode.
      * right. apply truthy_str_inv in Hcode. destruct Hcode as (code & Hout & Hne).
        rewrite Hout in Hnone. cbn [default] in Hnone. unfold id in Hnone.
        exists server, code, (exchange_request props code redirectUri).
        split; [rewrite Hwait, Hout; reflexivity|]. split; [reflexivity|].
        specialize (Htyped code _ (f_equal fst (codeRequest_run props code redirectUri w))).
        unfold refreshed_of, refresh_fails in *.
        destruct (fetch_result (env w) _) as [|response] eqn:Hf;
          [left; left; reflexivity|].
        destruct (resp_ok response) eqn:Hok; [|left; right; exists response; auto].
        destruct (resp_body response) as [raw|body] eqn:Hbody;
          [right; exists response, raw; auto|].
        destruct (Htyped response body eq_refl Hok Hbody) as [t Ht].
        rewrite Ht in Hnone. discriminate.
      * left. exists server, (fst out).
        split; [rewrite startLocalOAuthServer_listen, Hport; reflexivity|].
        split; [apply Hwait | exact Hcode].
  - intros [= <- <-]. eexists. split; [reflexivity|].
    split; [reflexivity|]. split; [reflexivity|]. split; [reflexivity|].
    split.
    + intros token. split; [discriminate|].
      intros (server & code & request & response & body & Hs & _).
      rewrite startLocalOAuthServer_listen, Hport in Hs. discriminate.
    + intros _. left. intros server Hs.
      rewrite startLocalOAuthServer_listen, Hport in Hs. discriminate.
Qed.

Lemma getToken_result_witness :
  exists w',
    getToken Scenario.credentials1 Scenario.flowOptions1 Case.granting
    = (Return (Some Scenario.issued), w').
Proof.
  destruct (getToken Scenario.credentials1 Scenario.flowOptions1 Case.granting)
    as [r w'] eqn:Hrun.
  destruct (getToken_result
              [("client_id", JStr "id");
               ("client_secret", JStr "secret");
               ("auth_uri", JStr "https://example.org/auth");
               ("token_uri", JStr "https://example.org/token");
               ("redirect_uris", JArr [JStr "http://localhost:9326/oauth2callback"])]
              [JStr "http://localhost:9326/oauth2callback"]
              Scenario.flowOptions1 Case.granting r w' eq_refl
              ltac:(unfold timer_range; cbn; lia)
              (fun code request _ => typed_response_token true 200 Scenario.issued)
              Hrun)
    as (result & -> & _ & _ & _ & Hres & _).
  exists w'. do 2 f_equal.
  apply Hres.
  eexists 9326, "4/abc", _, _, _.
  split; [reflexivity|]. split; [reflexivity|]. split; [discriminate|].
  split; [reflexivity|]. split; [reflexivity|]. split; [reflexivity|].
  split; reflexivity.
Defined.

(** X18. The authorization URL built for object credentials has the
    credentials' [auth_uri] as its base and carries [client_id],
    [redirect_uri], [scope] and [response_type=code]; [access_type=offline]
    exactly when [includeOfflineAccess] is [true]; [login_hint] exactly when
    the hint is a string that is not empty; and [prompt] exactly when a
    prompt is given. Building it changes nothing. *)
Theorem authorizationUrl_parameters (props : list (string * JSValue))
    (options : OAuthGetTokenOptions) (redirectUri : JSValue) (w : World) :
  exists url,
    authorizationUrl (JObj props) options redirectUri w = (Return url, w)
    /\ auth_base url = default JUndefined (JS.assoc "auth_uri" props)
    /\ JS.assoc "client_id" (auth_params url)
       = Some (default JUndefined (JS.assoc "client_id" props))
    /\ JS.assoc "redirect_uri" (auth_params url) = Some redirectUri
    /\ JS.assoc "scope" (auth_params url) = Some (JStr (scope_opt options))
    /\ JS.assoc "response_type" (auth_params url) = Some (JStr "code")
    /\ JS.assoc "access_type" (auth_params url)
       = (if bool_decide (includeOfflineAccess options = Some true)
          then Some (JStr "offline") else None)
    /\ JS.assoc "login_hint" (auth_params url)
       = (if JS.truthy_str (loginHint options)
          then JStr <$> loginHint options else None)
    /\ JS.assoc "prompt" (auth_params url)
       = (fun p => JStr (prompt_string p)) <$> prompt options.
Proof.
  exists (authUrl_of props options redirectUri).
  split; [reflexivity|]. split; [reflexivity|].
  unfold authUrl_of. cbn [auth_params].
  destruct (bool_decide (includeOfflineAccess options = Some true));
    destruct (loginHint options) as [hint|]; cbn [JS.truthy_str];
    try destruct (negb (String.eqb hint EmptyString));
    destruct (prompt options) as [p|];
    repeat split; reflexivity.
Qed.

Lemma getToken_no_uri props options e w :
  JS.first (default JUndefined (JS.assoc "redirect_uris" props)) = Throw e ->
  getToken (JObj props) options w = (Throw e, set_flows (cons options) w).
Proof.
  intros Hfirst. unfold getToken.
  rewrite run_bind. unfold modify at 1. cbv beta iota.
  cbn [JS.get]. rewrite run_bind. unfold lift at 1. cbv beta iota.
  rewrite Hfirst, run_bind. reflexivity.
Qed.

(** X19. A failure of the command that opens the browser is not fatal:
    [getToken] returns or throws the same, records the same URL as the one
    to visit and answers the same requests, whether the command succeeds or
    fails. *)
Theorem getToken_browser_failure_harmless (credentials : JSValue)
    (options : OAuthGetTokenOptions) (w : World) (b : bool) :
  fst (getToken credentials options (set_exec_ok b w))
  = fst (getToken credentials options w)
  /\ opened (snd (getToken credentials options (set_exec_ok b w)))
     = opened (snd (getToken credentials options w))
  /\ replies (snd (getToken credentials options (set_exec_ok b w)))
     = replies (snd (getToken credentials options w)).
Proof.
  destruct credentials as [| | | | | |props]; try (repeat split; reflexivity).
  destruct (JS.first (default JUndefined (JS.assoc "redirect_uris" props)))
    as [redirectUri|e] eqn:Hfirst.
  - rewrite !(getToken_run props options redirectUri) by exact Hfirst.
    change (listen_port (set_exec_ok b w) redirectUri) with (listen_port w redirectUri).
    destruct (listen_port w redirectUri); repeat split; reflexivity.
  - rewrite !(getToken_no_uri props options e) by exact Hfirst.
    repeat split; reflexivity.
Qed.

Lemma saveToken_opened this token w :
  opened (snd (saveToken this token w)) = opened w
  /\ replies (snd (saveToken this token w)) = replies w.
Proof.
  unfold saveToken. rewrite run_bind. unfold Date_now. cbv beta iota.
  rewrite run_bind. unfold fs.existsSync, gets. cbv beta iota.
  unfold fs.mkdirSync, fs.writeFileSync.
  destruct (negb _); rewrite run_bind; cbn; destruct (readonly w) eqn:Hro; cbn;
    rewrite ?Hro; repeat split.
Qed.

Lemma listen_port_frame w w' redirectUri :
  frame w w' -> listen_port w' redirectUri = listen_port w redirectUri.
Proof.
  intros (He & _ & _ & _ & Hl & _). unfold listen_port. rewrite He, Hl. reflexivity.
Qed.

Lemma useExisting_unusable this client w :
  unusable this w ->
  exists w1,
    useExisting this client w = (Return None, w1)
    /\ frame w w1 /\ opened w1 = opened w /\ replies w1 = replies w.
Proof.
  intros [Hst%nothing_stored_none | (token & Hst & Hexp & Hrt)]; unfold useExisting;
    rewrite run_bind, getStoredToken_run, Hst; cbv beta iota.
  - exists w. split; [reflexivity|]. split; [apply frame_refl|]. auto.
  - rewrite run_bind, isTokenExpired_run, Hexp. cbv beta iota. cbn [negb].
    rewrite Hrt. eexists. split; [reflexivity|].
    destruct (JS.truthy_num (expires_at token)); repeat split.
Qed.



(** Under the orchestrator's callback, with nothing usable stored,
    [getValidToken] runs the flow once in the world the look at the store
    left, and saves the token the flow brings. *)
Lemma getValidToken_unusable options this client credentials w :
  unusable this w ->
  exists w1,
    frame w w1 /\ opened w1 = opened w /\ replies w1 = replies w
    /\ getValidToken this client (Some (onAuthenticationNeeded options this credentials)) w
       = match getToken credentials (authOptions_of options (stored this w)) w1 with
         | (Return (Some newToken), w2) =>
             match saveToken this newToken w2 with
             | (Return _, w3) => (Return (Some newToken), w3)
             | (Throw e, w3) => (Throw e, w3)
             end
         | (Return None, w2) => (Return None, w2)
         | (Throw e, w2) => (Throw e, w2)
         end.
Proof.
  intros Hun.
  destruct (useExisting_unusable this client w Hun) as (w1 & Huse & Hfr & Ho & Hr).
  exists w1. split; [exact Hfr|]. split; [exact Ho|]. split; [exact Hr|].
  unfold getValidToken. rewrite run_bind, Huse. cbv beta iota.
  rewrite run_bind, onAuthenticationNeeded_run, (stored_frame this w w1 Hfr).
  destruct (getToken _ _ w1) as [[[newToken|]|e] w2]; reflexivity.
Qed.

(** X21. End to end: when nothing usable is stored (the token file is
    missing, unreadable or not JSON, or it holds a token of the declared
    type that is expired and has no refresh token), the caller gave no
    prompt and did not turn offline access off, the [credentialsKey], if
    any, is not a name from [Object.prototype], and the listener for the
    first redirect URI can be started, [authenticateOAuth] sends the user to
    exactly one new URL, at the credentials' [auth_uri], and that URL
    carries [prompt=consent], [access_type=offline], the first redirect URI
    and the requested scope. *)
Theorem authenticateOAuth_consent_in_url (input : CredentialsInput)
    (options : Auth.Options) (w : World) (props : list (string * JSValue))
    (uris : list JSValue) (this : OAuthTokenManager) (server : Z) :
  (forall key, Auth.credentialsKey options = Some key -> key ∉ Object_prototype) ->
  fst (resolveCredentials input (Auth.credentialsKey options) w)
  = Return (Some (JObj props)) ->
  fst (missingRequiredFields (JObj props) w) = Return false ->
  constructor (tokenManagerOptions options (cwd (env w))) = Return this ->
  unusable this w ->
  Auth.prompt options = None ->
  Auth.includeOfflineAccess options <> Some false ->
  JS.assoc "redirect_uris" props = Some (JArr uris) ->
  fst (startLocalOAuthServer (default JUndefined (head uris)) w) = Return server ->
  exists url,
    opened (snd (authenticateOAuth input options w)) = url :: opened w
    /\ auth_base url = default JUndefined (JS.assoc "auth_uri" props)
    /\ JS.assoc "prompt" (auth_params url) = Some (JStr "consent")
    /\ JS.assoc "access_type" (auth_params url) = Some (JStr "offline")
    /\ JS.assoc "redirect_uri" (auth_params url) = Some (default JUndefined (head uris))
    /\ JS.assoc "scope" (auth_params url) = Some (JStr (Auth.scope options)).
Proof.
  intros _ Hres Hmiss Hc Hun Hprompt Hoffline Huris Hstart.
  destruct (authenticateOAuth_continue input options w (JObj props) this Hres Hmiss Hc)
    as (client & ->).
  destruct (getValidToken_unusable options this client (JObj props) w Hun)
    as (w1 & Hfr & Ho & _ & ->).
  set (redirectUri := default JUndefined (head uris)) in *.
  set (authOptions := authOptions_of options (stored this w)).
  rewrite (getToken_run props authOptions redirectUri w1)
    by (rewrite Huris; reflexivity).
  rewrite (listen_port_frame w w1 redirectUri Hfr).
  rewrite startLocalOAuthServer_listen in Hstart.
  destruct (listen_port w redirectUri) as [port|]; [|discriminate].
  cbv zeta.
  exists (authUrl_of props authOptions redirectUri).
  split.
  - match goal with
    | |- context [if ?c then _ else _] => destruct c
    end.
    + match goal with
      | |- context [refreshed_of ?r] => destruct (refreshed_of r) as [newToken|]
      end; [|cbn [snd opened]; rewrite Ho; reflexivity].
      match goal with
      | |- context [saveToken this newToken ?w2] =>
          pose proof (proj1 (saveToken_opened this newToken w2)) as Hsave;
          destruct (saveToken this newToken w2) as [[[]|e] w3]
      end; cbn [snd] in Hsave |- *; rewrite Hsave; cbn [opened]; rewrite Ho; reflexivity.
    + cbn [snd opened]. rewrite Ho. reflexivity.
  - assert (Hp : prompt authOptions = Some PromptConsent).
    { unfold authOptions, authOptions_of, effectivePrompt_of. cbn [prompt].
      rewrite Hprompt. unfold wantOfflineAccess.
      rewrite bool_decide_eq_false_2 by exact Hoffline. cbn [negb].
      destruct Hun as [-> %nothing_stored_none | (token & -> & _ & ->)]; reflexivity. }
    assert (Ha : includeOfflineAccess authOptions = Some true).
    { unfold authOptions, authOptions_of, wantOfflineAccess. cbn [includeOfflineAccess].
      rewrite bool_decide_eq_false_2 by exact Hoffline. reflexivity. }
    unfold authUrl_of. cbn [auth_base auth_params]. rewrite Hp, Ha.
    rewrite bool_decide_eq_true_2 by reflexivity.
    split; [reflexivity|].
    destruct (JS.truthy_str (loginHint authOptions)); repeat split; reflexivity.
Qed.

Lemma authenticateOAuth_consent_in_url_witness :
  exists url,
    opened (snd (authenticateOAuth (CredentialsData Scenario.credentials1)
                   Scenario.authOptions1 Case.granting))
    = [url]
    /\ JS.assoc "prompt" (auth_params url) = Some (JStr "consent").
Proof.
  destruct (authenticateOAuth_consent_in_url (CredentialsData Scenario.credentials1)
              Scenario.authOptions1 Case.granting
              [("client_id", JStr "id");
               ("client_secret", JStr "secret");
               ("auth_uri", JStr "https://example.org/auth");
               ("token_uri", JStr "https://example.org/token");
               ("redirect_uris", JArr [JStr "http://localhost:9326/oauth2callback"])]
              [JStr "http://localhost:9326/oauth2callback"]
              {| tokenPath := Scenario.tokenFile; expirationBuffer := 300000;
                 maxTokenLifetime := None |} 9326
              ltac:(intros key Hkey; discriminate)
              eq_refl eq_refl eq_refl
              ltac:(left; intros v Hv; discriminate)
              eq_refl ltac:(discriminate) eq_refl eq_refl)
    as (url & Hopened & _ & Hprompt & _).
  exists url. split; [exact Hopened | exact Hprompt].
Defined.

(** X22. Complete credentials without a [redirect_uris] property do not
    make [authenticateOAuth] return the absent value: when nothing usable is
    stored (the token file is missing, unreadable or not JSON, or it holds a
    token of the declared type that is expired and has no refresh token), so
    that a flow is needed, it throws a [TypeError]. The files and the
    listeners are as before, and no browser was opened. A [credentialsKey]
    is not a name from [Object.prototype]. *)
Theorem authenticateOAuth_without_redirect_uris (input : CredentialsInput)
    (options : Auth.Options) (w : World) (props : list (string * JSValue))
    (this : OAuthTokenManager) :
  (forall key, Auth.credentialsKey options = Some key -> key ∉ Object_prototype) ->
  fst (resolveCredentials input (Auth.credentialsKey options) w)
  = Return (Some (JObj props)) ->
  fst (missingRequiredFields (JObj props) w) = Return false ->
  constructor (tokenManagerOptions options (cwd (env w))) = Return this ->
  unusable this w ->
  JS.assoc "redirect_uris" props = None ->
  exists message w',
    authenticateOAuth input options w = (Throw (TypeError message), w')
    /\ files w' = files w /\ listening w' = listening w /\ opened w' = opened w.
Proof.
  intros _ Hres Hmiss Hc Hun Huris.
  destruct (authenticateOAuth_continue input options w (JObj props) this Hres Hmiss Hc)
    as (client & ->).
  destruct (getValidToken_unusable options this client (JObj props) w Hun)
    as (w1 & (_ & Hf & _ & _ & Hl & _) & Ho & _ & ->).
  rewrite (getToken_no_uri props _
             (TypeError "Cannot read properties of undefined or null: 0"))
    by (rewrite Huris; reflexivity).
  eexists _, _. split; [reflexivity|]. cbn [files listening opened set_flows]. auto.
Qed.

Lemma authenticateOAuth_without_redirect_uris_witness :
  exists message w',
    authenticateOAuth (CredentialsData Case.no_redirects) Scenario.authOptions1
      Scenario.fresh
    = (Throw (TypeError message), w')
    /\ files w' = files Scenario.fresh /\ listening w' = listening Scenario.fresh
    /\ opened w' = opened Scenario.fresh.
Proof.
  apply (authenticateOAuth_without_redirect_uris (CredentialsData Case.no_redirects)
           Scenario.authOptions1 Scenario.fresh
           [("client_id", JStr "id");
            ("client_secret", JStr "secret");
            ("auth_uri", JStr "https://example.org/auth");
            ("token_uri", JStr "https://example.org/token")]
           {| tokenPath := Scenario.tokenFile; expirationBuffer := 300000;
              maxTokenLifetime := None |}).
  - intros key Hkey. discriminate.
  - reflexivity.
  - reflexivity.
  - reflexivity.
  - left. intros v Hv. discriminate.
  - reflexivity.
Defined.

(** X23. Whenever [authenticateOAuth] returns the absent value, the files,
    the directories and the open listeners are exactly as they were before
    the call: a failed authentication neither writes nor deletes a token
    file, and leaves no listener behind. *)
Theorem authenticateOAuth_null_keeps_store (input : CredentialsInput)
    (options : Auth.Options) (w : World) :
  fst (authenticateOAuth input options w) = Return None ->
  files (snd (authenticateOAuth input options w)) = files w
  /\ dirs (snd (authenticateOAuth input options w)) = dirs w
  /\ listening (snd (authenticateOAuth input options w)) = listening w.
Proof.
  destruct (authenticateOAuth_run input options w)
    as [(r & ->) | (credentials & this & client & _ & ->)]; [auto|].
  unfold getValidToken. rewrite run_bind.
  destruct (useExisting_cases this client w)
    as (r & w1 & -> & _ & _ & _ & Hnone & _ & _).
  destruct r as [[token|]|e]; [discriminate| |discriminate].
  destruct (Hnone eq_refl) as (_ & Hf1 & Hd1 & _ & Hl1 & _).
  rewrite run_bind.
  pose proof (onAuthenticationNeeded_flows options this credentials w1) as Hfr.
  destruct (onAuthenticationNeeded options this credentials w1) as [[[newToken|]|e] w2];
    cbn [snd] in Hfr.
  - rewrite run_bind. destruct (saveToken this newToken w2) as [[[]|e] w3]; discriminate.
  - intros _. cbn [snd]. destruct Hfr as (_ & Hf & Hd & _ & Hl & _).
    change (files w2 = files w1) in Hf. change (dirs w2 = dirs w1) in Hd.
    change (listening w2 = listening w1) in Hl.
    change (snd ((mret None : M (option OAuthToken)) w2)) with w2.
    split; [|split]; congruence.
  - discriminate.
Qed.

Lemma authenticateOAuth_null_keeps_store_witness :
  files (snd (authenticateOAuth (CredentialsData Scenario.credentials1)
                Scenario.authOptions1 Scenario.late_callback))
  = files Scenario.late_callback
  /\ dirs (snd (authenticateOAuth (CredentialsData Scenario.credentials1)
                  Scenario.authOptions1 Scenario.late_callback))
     = dirs Scenario.late_callback
  /\ listening (snd (authenticateOAuth (CredentialsData Scenario.credentials1)
                       Scenario.authOptions1 Scenario.late_callback))
     = listening Scenario.late_callback.
Proof.
  apply (authenticateOAuth_null_keeps_store (CredentialsData Scenario.credentials1)
           Scenario.authOptions1 Scenario.late_callback).
  reflexivity.
Defined.





(** ** The directory of the token file *)

(** X25. Missing directories are created. On a medium that takes writes,
    where the token path is not a directory and nothing above it is a
    regular file: the save returns, and afterwards the directory of the
    token file exists, whether it was there before or not. A directory that
    was there stays; when the directory of the token file was there already
    no directory is added; and a directory that is added is the directory of
    the token file or one above it. *)
Theorem saveToken_ensures_directory (this : OAuthTokenManager) (token : OAuthToken)
    (w : World) :
  readonly w = false ->
  tokenPath this ∉ dirs w ->
  (forall d, d ∈ path.parents (tokenPath this) -> files w !! d = None) ->
  let tokenDir := path.dirname (tokenPath this) in
  exists w',
    saveToken this token w = (Return tt, w')
    /\ fst (fs.existsSync tokenDir w') = Return true
    /\ (forall d, d ∈ dirs w -> d ∈ dirs w')
    /\ (fst (fs.existsSync tokenDir w) = Return true -> dirs w' = dirs w)
    /\ (forall d, d ∈ dirs w' ->
          d ∈ dirs w \/ d = tokenDir \/ d ∈ path.parents tokenDir).
Proof.
  intros Hro _ _ tokenDir. unfold saveToken.
  rewrite run_bind. unfold Date_now. cbv beta iota.
  rewrite run_bind. unfold fs.existsSync at 1, gets at 1. cbv beta iota.
  fold tokenDir. cbn [files dirs set_tick].
  destruct (bool_decide (is_Some (files w !! tokenDir)) || bool_decide (tokenDir ∈ dirs w))
    eqn:Hexists; cbn [negb].
  - rewrite run_bind. unfold mret at 1, M_ret at 1, ret at 1. cbv beta iota.
    unfold fs.writeFileSync. cbn [readonly set_tick]. rewrite Hro.
    eexists. split; [reflexivity|].
    unfold fs.existsSync, gets. cbn [fst files dirs set_files set_tick].
    split.
    + f_equal. apply orb_true_iff in Hexists. apply orb_true_iff.
      destruct Hexists as [Hfile%bool_decide_eq_true | Hdir]; [left | right; exact Hdir].
      apply bool_decide_eq_true.
      destruct (decide (tokenPath this = tokenDir)) as [->|Hne].
      * rewrite lookup_insert_eq. eauto.
      * rewrite lookup_insert_ne by exact Hne. exact Hfile.
    + split; [auto|]. split; [reflexivity|]. auto.
  - rewrite run_bind. unfold fs.mkdirSync at 1. cbn [readonly set_tick]. rewrite Hro.
    unfold fs.writeFileSync. cbn [readonly set_dirs set_tick]. rewrite Hro.
    eexists. split; [reflexivity|].
    unfold fs.existsSync, gets.
    cbn [fst files dirs set_files set_dirs set_tick].
    split.
    + f_equal. apply orb_true_iff. right. apply bool_decide_eq_true.
      apply elem_of_union. left. apply elem_of_union. left.
      apply elem_of_singleton. reflexivity.
    + split; [intros d Hd; apply elem_of_union; right; exact Hd|].
      split; [intros [= Hyes]; rewrite Hyes in Hexists; discriminate|].
      intros d [[Hd%elem_of_singleton | Hd%elem_of_list_to_set]%elem_of_union
               | Hd]%elem_of_union; auto.
Qed.

Lemma saveToken_ensures_directory_witness :
  exists w',
    saveToken Scenario.manager1 Scenario.issued
      (mkWorld (Scenario.env1 1000000 NetworkError []) ∅ ∅ false 0 [] [] [] [])
    = (Return tt, w')
    /\ fst (fs.existsSync "/home/u/tokens" w') = Return true.
Proof.
  destruct (saveToken_ensures_directory Scenario.manager1 Scenario.issued
              (mkWorld (Scenario.env1 1000000 NetworkError []) ∅ ∅ false 0 [] [] [] [])
              eq_refl ltac:(apply not_elem_of_empty)
              ltac:(intros d _; apply lookup_empty))
    as (w' & Hrun & Hdir & _).
  exists w'. split; [exact Hrun | exact Hdir].
Defined.
